(** * Data-extraction API: job lifecycle, mock client and statistics

    A shallow embedding of [extraction/models.py] and [extraction/services.py].
    The two database tables, the wall clock and the random source are the
    components of an explicit [World] that every operation threads through;
    Python exceptions are the [Raise] results of a state-and-error monad.

    Conventions.
    - A [string] is a sequence of characters, so [String.length] is Python's
      [len] and [String.prefix] is [str.startswith].
    - Timestamps and durations are integers counting microseconds, the
      resolution of [datetime]; [total_seconds()] is the exact rational
      of which Python returns the floating-point approximation.
    - The clock never runs backwards: every reading of [timezone.now()]
      is at or after the previous one. *)

From stdpp Require Import gmap strings list fin_maps pretty.
From Stdlib Require Import ZArith QArith Lia.

Set Default Proof Using "Type".

(** ** Python runtime: exceptions *)

Module Py.

(** The exception classes that the service can meet.  All of them derive
    from [Exception]; only [ValueError] is matched by [except ValueError]. *)
Inductive exn : Type :=
| ValueError (msg : string)
| DoesNotExist (msg : string)
| IntegrityError (msg : string)
| UnboundLocalError (msg : string).

(** [str(e)] *)
Definition str (e : exn) : string :=
  match e with
  | ValueError m | DoesNotExist m | IntegrityError m | UnboundLocalError m => m
  end.

(** [isinstance(e, ValueError)] *)
Definition is_ValueError (e : exn) : bool :=
  match e with ValueError _ => true | _ => false end.

(** [isinstance(e, ExtractionJob.DoesNotExist)] *)
Definition is_DoesNotExist (e : exn) : bool :=
  match e with DoesNotExist _ => true | _ => false end.

Inductive Result (A : Type) : Type :=
| Ok (a : A)
| Raise (e : exn).
Arguments Ok {A} a.
Arguments Raise {A} e.

(** [f"{z:04d}"]: decimal, zero-padded to four columns, sign included. *)
Fixpoint zeros (n : nat) : string :=
  match n with O => "" | S n => "0" +:+ zeros n end.

Definition zfill (width : nat) (digits : string) : string :=
  zeros (width - String.length digits) +:+ digits.

Definition format_04d (z : Z) : string :=
  if (z <? 0)%Z then "-" +:+ zfill 3 (pretty (- z)%Z) else zfill 4 (pretty z).

(** [range(a, b)] *)
Definition range (a b : Z) : list Z := seqZ a (b - a).

End Py.

Export Py.

(** ** models.py *)

Module Models.

(** A row of [ExtractionJob] without its primary key [job_id], which is
    the key under which the row is stored in the table. *)
Record ExtractionJob : Type := {
  status : string;
  api_token : string;
  result_data : option string;
  error_message : string;
  record_count : Z;
  start_time : option Z;
  end_time : option Z;
  created_at : Z;
  updated_at : Z
}.

Definition STATUS_CHOICES : list (string * string) :=
  [ ("pending", "Pending");
    ("in_progress", "In Progress");
    ("completed", "Completed");
    ("failed", "Failed");
    ("cancelled", "Cancelled") ].

(** Field assignments [job.f = v]. *)
Definition set_status (v : string) (j : ExtractionJob) : ExtractionJob :=
  {| status := v; api_token := api_token j; result_data := result_data j;
     error_message := error_message j; record_count := record_count j;
     start_time := start_time j; end_time := end_time j;
     created_at := created_at j; updated_at := updated_at j |}.

Definition set_error_message (v : string) (j : ExtractionJob) : ExtractionJob :=
  {| status := status j; api_token := api_token j; result_data := result_data j;
     error_message := v; record_count := record_count j;
     start_time := start_time j; end_time := end_time j;
     created_at := created_at j; updated_at := updated_at j |}.

Definition set_record_count (v : Z) (j : ExtractionJob) : ExtractionJob :=
  {| status := status j; api_token := api_token j; result_data := result_data j;
     error_message := error_message j; record_count := v;
     start_time := start_time j; end_time := end_time j;
     created_at := created_at j; updated_at := updated_at j |}.

Definition set_start_time (v : option Z) (j : ExtractionJob) : ExtractionJob :=
  {| status := status j; api_token := api_token j; result_data := result_data j;
     error_message := error_message j; record_count := record_count j;
     start_time := v; end_time := end_time j;
     created_at := created_at j; updated_at := updated_at j |}.

Definition set_end_time (v : option Z) (j : ExtractionJob) : ExtractionJob :=
  {| status := status j; api_token := api_token j; result_data := result_data j;
     error_message := error_message j; record_count := record_count j;
     start_time := start_time j; end_time := v;
     created_at := created_at j; updated_at := updated_at j |}.

Definition set_created_at (v : Z) (j : ExtractionJob) : ExtractionJob :=
  {| status := status j; api_token := api_token j; result_data := result_data j;
     error_message := error_message j; record_count := record_count j;
     start_time := start_time j; end_time := end_time j;
     created_at := v; updated_at := updated_at j |}.

Definition set_updated_at (v : Z) (j : ExtractionJob) : ExtractionJob :=
  {| status := status j; api_token := api_token j; result_data := result_data j;
     error_message := error_message j; record_count := record_count j;
     start_time := start_time j; end_time := end_time j;
     created_at := created_at j; updated_at := v |}.

(** The field defaults of the model; [api_token] has none of its own and
    falls back to the empty string of a [CharField]. *)
Definition default_job : ExtractionJob :=
  {| status := "pending"; api_token := ""; result_data := None;
     error_message := ""; record_count := 0;
     start_time := None; end_time := None;
     created_at := 0; updated_at := 0 |}.

(** [can_be_cancelled]: [self.status in ['pending', 'in_progress']] *)
Definition can_be_cancelled (self : ExtractionJob) : bool :=
  bool_decide (status self ∈ ["pending"; "in_progress"]).

(** A row of [ExtractedRecord]; [job] is the foreign key. *)
Record ExtractedRecord : Type := {
  job : N;
  id_from_service : string;
  email : string;
  first_name : string;
  last_name : string;
  additional_data : list (string * string);
  rec_created_at : Z
}.

Definition set_rec_created_at (v : Z) (r : ExtractedRecord) : ExtractedRecord :=
  {| job := job r; id_from_service := id_from_service r; email := email r;
     first_name := first_name r; last_name := last_name r;
     additional_data := additional_data r; rec_created_at := v |}.

(** [unique_together = ['job', 'id_from_service']] *)
Definition unique_key (r : ExtractedRecord) : N * string :=
  (job r, id_from_service r).

End Models.

Export Models.

(** ** The world: database tables, clock and random source *)

Module Runtime.

Record World : Type := {
  jobs : gmap N ExtractionJob;       (* table of ExtractionJob, by job_id *)
  records : list ExtractedRecord;    (* table of ExtractedRecord *)
  clock : Z;                         (* last reading of the wall clock *)
  entropy : nat → N;                 (* what the environment will answer *)
  cursor : nat                       (* how many answers were consumed *)
}.

Definition with_jobs (m : gmap N ExtractionJob) (w : World) : World :=
  {| jobs := m; records := records w; clock := clock w;
     entropy := entropy w; cursor := cursor w |}.

Definition with_records (l : list ExtractedRecord) (w : World) : World :=
  {| jobs := jobs w; records := l; clock := clock w;
     entropy := entropy w; cursor := cursor w |}.

Definition with_clock (t : Z) (w : World) : World :=
  {| jobs := jobs w; records := records w; clock := t;
     entropy := entropy w; cursor := cursor w |}.

Definition with_cursor (c : nat) (w : World) : World :=
  {| jobs := jobs w; records := records w; clock := clock w;
     entropy := entropy w; cursor := c |}.

(** Stateful computations that may raise. *)
Definition M (A : Type) : Type := World → Result A * World.

Definition ret {A} (a : A) : M A := λ w, (Ok a, w).

Definition raise {A} (e : exn) : M A := λ w, (Raise e, w).

Definition bind {A B} (m : M A) (k : A → M B) : M B :=
  λ w, match m w with
       | (Ok a, w') => k a w'
       | (Raise e, w') => (Raise e, w')
       end.

(** [try: m except Exception as e: h e] *)
Definition try_except {A} (m : M A) (h : exn → M A) : M A :=
  λ w, match m w with
       | (Ok a, w') => (Ok a, w')
       | (Raise e, w') => h e w'
       end.

Definition get_world : M World := λ w, (Ok w, w).

Definition modify (f : World → World) : M unit := λ w, (Ok tt, f w).

(** From [w] to [w'] the tables are the same and the clock has not gone back. *)
Definition quiet (w w' : World) : Prop :=
  jobs w' = jobs w ∧ records w' = records w ∧ (clock w ≤ clock w')%Z.

End Runtime.

Export Runtime.

#[global] Instance M_ret : MRet M := @ret.
#[global] Instance M_bind : MBind M := λ A B k m, bind m k.

Module Env.

(** The next answer of the environment. *)
Definition draw : M N :=
  λ w, (Ok (entropy w (cursor w)), with_cursor (S (cursor w)) w).

(** [timezone.now()]: some time, possibly none, has passed since the
    previous reading. *)
Definition timezone_now : M Z :=
  d ← draw;
  w ← get_world;
  let t := (clock w + Z.of_N d)%Z in
  modify (with_clock t) ;;
  ret t.

(** [time.sleep(us)], in microseconds. *)
Definition time_sleep (us : Z) : M unit :=
  modify (λ w, with_clock (clock w + us)%Z w).

(** [random.uniform(a, b)] for whole seconds [a <= b], in microseconds:
    any value from [a] to [b] inclusive. *)
Definition random_uniform (a b : Z) : M Z :=
  d ← draw;
  ret (a * 1000000 + Z.of_N d mod ((b - a) * 1000000 + 1))%Z.

(** [random.randint(a, b)]: any integer [N] with [a <= N <= b]. *)
Definition random_randint (a b : Z) : M Z :=
  d ← draw;
  ret (a + Z.of_N d mod (b - a + 1))%Z.

(** [uuid.uuid4()] *)
Definition uuid4 : M N := draw.

End Env.

Export Env.

(** ** The object-relational layer *)

Module ORM.

(** [ExtractionJob.objects.get(job_id=job_id)] *)
Definition objects_get (job_id : N) : M ExtractionJob :=
  w ← get_world;
  match jobs w !! job_id with
  | Some j => ret j
  | None => raise (DoesNotExist "ExtractionJob matching query does not exist.")
  end.

(** [ExtractionJob.objects.create] with the given field values: the key comes from
    [uuid.uuid4], [created_at] and [updated_at] from the clock, and the
    row is inserted, which the primary key constraint can refuse. *)
Definition objects_create (fields : ExtractionJob) : M (N * ExtractionJob) :=
  job_id ← uuid4;
  t1 ← timezone_now;
  t2 ← timezone_now;
  let j := set_updated_at t2 (set_created_at t1 fields) in
  w ← get_world;
  match jobs w !! job_id with
  | Some _ => raise (IntegrityError "UNIQUE constraint failed: extraction_extractionjob.job_id")
  | None => modify (with_jobs (<[job_id := j]> (jobs w))) ;; ret (job_id, j)
  end.

(** [job.save()]: [updated_at] is refreshed ([auto_now]) and every field
    of the object is written to its row. *)
Definition save (job_id : N) (j : ExtractionJob) : M ExtractionJob :=
  t ← timezone_now;
  let j' := set_updated_at t j in
  modify (λ w, with_jobs (<[job_id := j']> (jobs w)) w) ;;
  ret j'.

(** [job.delete()], with [on_delete=CASCADE] on the records of the job. *)
Definition delete (job_id : N) : M unit :=
  modify (λ w, with_records (filter (λ r, job r ≠ job_id) (records w))
                 (with_jobs (base.delete job_id (jobs w)) w)).

(** [job.records.all().delete()] *)
Definition records_delete (job_id : N) : M unit :=
  modify (λ w, with_records (filter (λ r, job r ≠ job_id) (records w)) w).

(** [auto_now_add] stamps each object of a batch in turn. *)
Fixpoint stamp (rs : list ExtractedRecord) : M (list ExtractedRecord) :=
  match rs with
  | [] => ret []
  | r :: rs =>
      t ← timezone_now;
      rs' ← stamp rs;
      ret (set_rec_created_at t r :: rs')
  end.

(** The rows [rs] can join the table: their keys differ from each other
    and from the keys already there. *)
Definition insertable (rs : list ExtractedRecord) (w : World) : Prop :=
  NoDup (unique_key <$> rs) ∧
  Forall (λ k, k ∉ unique_key <$> records w) (unique_key <$> rs).

#[global] Instance insertable_dec rs w : Decision (insertable rs w).
Proof. unfold insertable. apply _. Defined.

(** [ExtractedRecord.objects.bulk_create(records)]: one statement, so
    either every row is inserted or, when [unique_together] would be
    violated, none is and [IntegrityError] is raised. *)
Definition bulk_create (rs : list ExtractedRecord) : M unit :=
  rs' ← stamp rs;
  w ← get_world;
  if bool_decide (insertable rs' w)
  then modify (with_records (records w ++ rs'))
  else raise (IntegrityError
    "UNIQUE constraint failed: extraction_extractedrecord.job_id, extraction_extractedrecord.id_from_service").

End ORM.

(** ** services.py: the mock third-party client *)

Module MockThirdPartyAPI.

(** [validate_token]:
    [bool(self.api_token and len(self.api_token) > 10
          and not self.api_token.startswith('invalid'))] *)
Definition validate_token (api_token : string) : bool :=
  negb (String.eqb api_token "")
  && (10 <? String.length api_token)%nat
  && negb (String.prefix "invalid" api_token).

(** One item of [mock_data]; every item carries the same five keys. *)
Record item : Type := {
  item_id_from_service : string;
  item_email : string;
  item_first_name : string;
  item_last_name : string;
  item_additional_data : list (string * string)
}.

Definition mock_item (i : Z) : item :=
  {| item_id_from_service := "user_" +:+ pretty i;
     item_email := "user" +:+ pretty i +:+ "@example.com";
     item_first_name := "FirstName" +:+ pretty i;
     item_last_name := "LastName" +:+ pretty i;
     item_additional_data :=
       [ ("phone", "+1-555-" +:+ format_04d (1000 + i));
         ("company", "Company " +:+ pretty i);
         ("created_date", "2023-01-01") ] |}.

(** [extract_data] *)
Definition extract_data (api_token : string) : M (list item) :=
  if negb (validate_token api_token)
  then raise (ValueError "Invalid API token")
  else
    delay ← random_uniform 1 3;
    time_sleep delay ;;
    n ← random_randint 5 25;
    ret (mock_item <$> range 1 n).

End MockThirdPartyAPI.

(** ** services.py: the extraction service *)

Module ExtractionService.

Import MockThirdPartyAPI.

(** [start_extraction] *)
Definition start_extraction (api_token : string) : M (N * ExtractionJob) :=
  ORM.objects_create
    {| status := "pending"; api_token := api_token;
       result_data := result_data default_job;
       error_message := error_message default_job;
       record_count := record_count default_job;
       start_time := start_time default_job;
       end_time := end_time default_job;
       created_at := created_at default_job;
       updated_at := updated_at default_job |}.

(** The body of the loop of [_process_extraction]. *)
Definition to_record (job_id : N) (data : item) : ExtractedRecord :=
  {| job := job_id;
     id_from_service := item_id_from_service data;
     email := item_email data;
     first_name := item_first_name data;
     last_name := item_last_name data;
     additional_data := item_additional_data data;
     rec_created_at := 0 |}.

(** The first four statements of the [try] block: the job is fetched,
    marked [in_progress], given its [start_time] and saved. *)
Definition mark_in_progress (job_id : N) : M ExtractionJob :=
  job ← ORM.objects_get job_id;
  now ← timezone_now;
  ORM.save job_id (set_start_time (Some now) (set_status "in_progress" job)).

(** The rest of the [try] block, with the local [job] bound. *)
Definition run_extraction (job_id : N) (job : ExtractionJob) : M unit :=
  extracted_data ← extract_data (api_token job);
  let records := to_record job_id <$> extracted_data in
  ORM.bulk_create records ;;
  now ← timezone_now;
  ORM.save job_id
    (set_record_count (Z.of_nat (length records))
       (set_end_time (Some now) (set_status "completed" job))) ;;
  mret tt.

(** The two [except] clauses.  Both begin with [job.status = 'failed'],
    which needs the local [job]: when the exception left it unbound,
    that statement raises [UnboundLocalError] itself. *)
Definition on_exception (job_id : N) (job : option ExtractionJob) (e : exn) : M unit :=
  match job with
  | None =>
      raise (UnboundLocalError
        "cannot access local variable 'job' where it is not associated with a value")
  | Some job =>
      let message :=
        if is_ValueError e then str e else "Unexpected error: " +:+ str e in
      now ← timezone_now;
      ORM.save job_id
        (set_end_time (Some now)
           (set_error_message message (set_status "failed" job))) ;;
      mret tt
  end.

(** [_process_extraction] *)
Definition _process_extraction (job_id : N) : M unit :=
  λ w, match mark_in_progress job_id w with
       | (Raise e, w1) => on_exception job_id None e w1
       | (Ok job, w1) =>
           try_except (run_extraction job_id job) (on_exception job_id (Some job)) w1
       end.

(** [process_extraction_manually] *)
Definition process_extraction_manually (job_id : N) : M bool :=
  try_except (_process_extraction job_id ;; mret true) (λ _, mret false).

(** [cancel_job] *)
Definition cancel_job (job_id : N) : M bool :=
  try_except
    (job ← ORM.objects_get job_id;
     if can_be_cancelled job then
       now ← timezone_now;
       ORM.save job_id (set_end_time (Some now) (set_status "cancelled" job)) ;;
       mret true
     else mret false)
    (λ e, if is_DoesNotExist e then mret false else raise e).

(** [remove_job_data] *)
Definition remove_job_data (job_id : N) : M bool :=
  try_except
    (_ ← ORM.objects_get job_id;
     ORM.records_delete job_id ;;
     ORM.delete job_id ;;
     mret true)
    (λ e, if is_DoesNotExist e then mret false else raise e).

(** The dictionary returned by [get_job_statistics]. *)
Record Statistics : Type := {
  total_jobs : Z;
  completed_jobs : Z;
  failed_jobs : Z;
  pending_jobs : Z;
  in_progress_jobs : Z;
  cancelled_jobs : Z;
  average_duration_seconds : Q;
  total_records_extracted : Z
}.

(** [ExtractionJob.objects.all()] *)
Definition objects_all (w : World) : list ExtractionJob :=
  (map_to_list (jobs w)).*2.

(** [queryset.count()] and [len] *)
Definition count {A} (l : list A) : Z := Z.of_nat (length l).

(** [queryset.filter(status=s)] *)
Definition filter_status (s : string) (l : list ExtractionJob) : list ExtractionJob :=
  filter (λ j, status j = s) l.

(** [filter(status='completed', start_time__isnull=False, end_time__isnull=False)] *)
Definition filter_completed_timed (l : list ExtractionJob) : list ExtractionJob :=
  filter (λ j, status j = "completed" ∧ start_time j ≠ None ∧ end_time j ≠ None) l.

(** [ExtractionJob.duration_seconds]; the clock is read in the [elif]
    branch only. *)
Definition duration_seconds (self : ExtractionJob) : M Q :=
  match start_time self, end_time self with
  | Some s, Some e => mret (Qmake (e - s) 1000000)
  | Some s, None => now ← timezone_now; mret (Qmake (now - s) 1000000)
  | None, _ => mret 0%Q
  end.

(** The [for] loop filling [completed_job_durations]. *)
Fixpoint collect_durations (js : list ExtractionJob) : M (list Q) :=
  match js with
  | [] => mret []
  | j :: js =>
      d ← duration_seconds j;
      ds ← collect_durations js;
      mret (d :: ds)
  end.

(** [sum(l)] *)
Definition sum_Q (l : list Q) : Q := fold_left Qplus l 0%Q.

(** [sum(l) / len(l) if l else 0] *)
Definition average (l : list Q) : Q :=
  match l with
  | [] => 0%Q
  | _ :: _ => (sum_Q l / inject_Z (count l))%Q
  end.

(** [aggregate(total=Sum('record_count'))['total']]: [None] on an empty table. *)
Definition aggregate_Sum (l : list Z) : option Z :=
  match l with
  | [] => None
  | _ :: _ => Some (fold_left Z.add l 0%Z)
  end.

(** [x or 0] *)
Definition or_0 (x : option Z) : Z :=
  match x with
  | None => 0%Z
  | Some v => if (v =? 0)%Z then 0%Z else v
  end.

(** [get_job_statistics] *)
Definition get_job_statistics : M Statistics :=
  w ← get_world;
  let all := objects_all w in
  let total_jobs := count all in
  let completed_jobs := count (filter_status "completed" all) in
  let failed_jobs := count (filter_status "failed" all) in
  let pending_jobs := count (filter_status "pending" all) in
  let in_progress_jobs := count (filter_status "in_progress" all) in
  let cancelled_jobs := count (filter_status "cancelled" all) in
  completed_job_durations ← collect_durations (filter_completed_timed all);
  let avg_duration := average completed_job_durations in
  let total_records := or_0 (aggregate_Sum (record_count <$> all)) in
  mret {| total_jobs := total_jobs;
          completed_jobs := completed_jobs;
          failed_jobs := failed_jobs;
          pending_jobs := pending_jobs;
          in_progress_jobs := in_progress_jobs;
          cancelled_jobs := cancelled_jobs;
          average_duration_seconds := avg_duration;
          total_records_extracted := total_records |}.

End ExtractionService.

Export MockThirdPartyAPI ExtractionService.

(** ** Sequences of operations *)

Module Lifecycle.

(** What a client of the application can do to the store: the four
    operations of the service that write, and the plain creation of a
    job row with field values of its choice (the legacy [POST /jobs/]
    view, the seeding command and the test suite call
    [ExtractionJob.objects.create] directly). *)
Inductive op : Type :=
| Create (fields : ExtractionJob)
| Start (api_token : string)
| Process (job_id : N)
| Cancel (job_id : N)
| Remove (job_id : N).

Definition exec (o : op) (w : World) : World :=
  match o with
  | Create fields => snd (ORM.objects_create fields w)
  | Start api_token => snd (start_extraction api_token w)
  | Process job_id => snd (process_extraction_manually job_id w)
  | Cancel job_id => snd (cancel_job job_id w)
  | Remove job_id => snd (remove_job_data job_id w)
  end.

Definition run (ops : list op) (w : World) : World :=
  fold_left (λ w o, exec o w) ops w.

(** The operations of [ExtractionService]. *)
Definition service_op (o : op) : Prop :=
  match o with Create _ => False | _ => True end.

Definition empty_store (w : World) : Prop := jobs w = ∅ ∧ records w = [].

(** The stores that the application can build from an empty database. *)
Definition reachable (w : World) : Prop :=
  ∃ w0 ops, empty_store w0 ∧ w = run ops w0.

Definition terminal (s : string) : Prop := s ∈ ["completed"; "failed"; "cancelled"].

(** The records persisted for a job. *)
Definition records_of (job_id : N) (w : World) : list ExtractedRecord :=
  filter (λ r, job r = job_id) (records w).

(** The rows that a run of [_process_extraction] builds for the job when
    [random.randint] has answered [n]. *)
Definition batch (job_id : N) (n : Z) : list ExtractedRecord :=
  to_record job_id <$> (mock_item <$> range 1 n).

(** No record persisted for the job is named like one of the mock source. *)
Definition no_mock_record (job_id : N) (w : World) : Prop :=
  ∀ r i, r ∈ records w → job r = job_id → (1 ≤ i ≤ 24)%Z →
         id_from_service r ≠ "user_" +:+ pretty i.

(** The three ways in which a run of [_process_extraction] turns the
    row [j] of an existing job into [j'], adding the rows [new] to the
    table of records of [w]. *)
Inductive run_result (job_id : N) (w : World) (j j' : ExtractionJob)
    (new : list ExtractedRecord) : Prop :=
| run_invalid :
    validate_token (api_token j) = false →
    status j' = "failed" →
    error_message j' = "Invalid API token" →
    record_count j' = record_count j →
    new = [] →
    run_result job_id w j j' new
| run_completed (n : Z) :
    validate_token (api_token j) = true →
    (5 ≤ n ≤ 25)%Z →
    ORM.insertable (batch job_id n) w →
    status j' = "completed" →
    error_message j' = error_message j →
    record_count j' = (n - 1)%Z →
    unique_key <$> new = unique_key <$> batch job_id n →
    run_result job_id w j j' new
| run_refused (n : Z) (msg : string) :
    validate_token (api_token j) = true →
    (5 ≤ n ≤ 25)%Z →
    ¬ ORM.insertable (batch job_id n) w →
    status j' = "failed" →
    error_message j' = "Unexpected error: " +:+ msg →
    record_count j' = record_count j →
    new = [] →
    run_result job_id w j j' new.

(** What an operation does to the two tables, from [w] to [w']. *)
Inductive effect (w w' : World) : op → Prop :=
| effect_none o :
    jobs w' = jobs w → records w' = records w →
    effect w w' o
| effect_create fields job_id t1 t2 :
    jobs w !! job_id = None →
    jobs w' = <[job_id := set_updated_at t2 (set_created_at t1 fields)]> (jobs w) →
    records w' = records w →
    effect w w' (Create fields)
| effect_start api_token job_id j :
    jobs w !! job_id = None →
    status j = "pending" → start_time j = None → end_time j = None →
    jobs w' = <[job_id := j]> (jobs w) →
    records w' = records w →
    effect w w' (Start api_token)
| effect_process job_id j j' new t0 t1 :
    jobs w !! job_id = Some j →
    jobs w' = <[job_id := j']> (jobs w) →
    records w' = records w ++ new →
    run_result job_id w j j' new →
    start_time j' = Some t0 → end_time j' = Some t1 →
    effect w w' (Process job_id)
| effect_cancel job_id j t u :
    jobs w !! job_id = Some j →
    can_be_cancelled j = true →
    jobs w' = <[job_id := set_updated_at u
                            (set_end_time (Some t) (set_status "cancelled" j))]> (jobs w) →
    records w' = records w →
    effect w w' (Cancel job_id)
| effect_remove job_id j :
    jobs w !! job_id = Some j →
    jobs w' = base.delete job_id (jobs w) →
    records w' = filter (λ r, job r ≠ job_id) (records w) →
    effect w w' (Remove job_id).

(** The timestamp invariant in the words of the specification. *)
Definition timestamps_specified (j : ExtractionJob) : Prop :=
  (is_Some (end_time j) ↔ terminal (status j)) ∧
  (status j ≠ "pending" → is_Some (start_time j)).

(** The timestamp invariant that the service keeps: a job cancelled
    before it was processed has no [start_time]. *)
Definition timestamps_kept (j : ExtractionJob) : Prop :=
  (is_Some (end_time j) ↔ terminal (status j)) ∧
  (status j ∈ ["in_progress"; "completed"; "failed"] → is_Some (start_time j)).

(** Referential integrity, and records only for jobs that were processed. *)
Definition store_ok (w : World) : Prop :=
  (∀ r, r ∈ records w → is_Some (jobs w !! job r)) ∧
  (∀ job_id j, jobs w !! job_id = Some j → status j = "pending" →
               records_of job_id w = []).

End Lifecycle.

Export Lifecycle.

(** ** The statistics in the words of the specification *)

Module Spec.

(** A token starts with a prefix when it is the prefix followed by something. *)
Definition starts_with (p s : string) : Prop := ∃ rest, s = p +:+ rest.

(** Completed, with both timestamps set. *)
Definition timed_completed (j : ExtractionJob) : Prop :=
  status j = "completed" ∧ is_Some (start_time j) ∧ is_Some (end_time j).

#[global] Instance timed_completed_dec j : Decision (timed_completed j).
Proof. unfold timed_completed. apply _. Defined.

(** [end_time - start_time], in microseconds. *)
Definition span (j : ExtractionJob) : Z :=
  match start_time j, end_time j with
  | Some s, Some e => e - s
  | _, _ => 0
  end.

Definition total (l : list Z) : Z := foldr Z.add 0%Z l.

(** The mean span of the timed completed jobs, in seconds; 0 without any. *)
Definition mean_duration (l : list ExtractionJob) : Q :=
  let sel := filter timed_completed l in
  match sel with
  | [] => 0%Q
  | _ :: _ => Qmake (total (span <$> sel)) (Pos.of_nat (length sel) * 1000000)
  end.

End Spec.

(** ** Worlds for examples *)

Module Examples.

(** A store with no rows, a clock at [t0] and an environment that
    answers [d] to every question. *)
Definition empty_world (t0 : Z) (d : N) : World :=
  {| jobs := ∅; records := []; clock := t0; entropy := λ _, d; cursor := 0 |}.

(** A store holding the single job [j] under the key [job_id]. *)
Definition world_with (job_id : N) (j : ExtractionJob) (d : N) : World :=
  {| jobs := {[ job_id := j ]}; records := []; clock := 1000; entropy := λ _, d; cursor := 0 |}.

(** A row as the test suite creates them. *)
Definition seeded (s tok : string) (n : Z) (t0 t1 : option Z) : ExtractionJob :=
  {| status := s; api_token := tok; result_data := None; error_message := "";
     record_count := n; start_time := t0; end_time := t1;
     created_at := 10; updated_at := 10 |}.

End Examples.

Import Examples.

(** ** views.py: the views that only call the service *)

Module Views.

(** The dictionaries that these views put in a [Response]. *)
Inductive body : Type :=
| Error (error : string)
| Message (message : string)
| MessageFor (message : string) (job_id : N).

Record Response : Type := { status_code : Z; data : body }.

Definition HTTP_200_OK : Z := 200.
Definition HTTP_404_NOT_FOUND : Z := 404.
Definition HTTP_409_CONFLICT : Z := 409.
Definition HTTP_500_INTERNAL_SERVER_ERROR : Z := 500.

(** [ScanCancelView.post] *)
Definition ScanCancelView_post (job_id : N) : M Response :=
  try_except
    (job ← ORM.objects_get job_id;
     if negb (can_be_cancelled job) then
       mret {| status_code := HTTP_409_CONFLICT;
               data := Error ("Job cannot be cancelled. Current status: " +:+ status job) |}
     else
       success ← cancel_job job_id;
       if success : bool then
         mret {| status_code := HTTP_200_OK;
                 data := MessageFor "Job cancelled successfully" job_id |}
       else
         mret {| status_code := HTTP_500_INTERNAL_SERVER_ERROR;
                 data := Error "Failed to cancel job" |})
    (λ e, if is_DoesNotExist e
          then mret {| status_code := HTTP_404_NOT_FOUND; data := Error "Job not found" |}
          else raise e).

(** [ScanRemoveView.delete] *)
Definition ScanRemoveView_delete (job_id : N) : M Response :=
  success ← remove_job_data job_id;
  if success : bool then
    mret {| status_code := HTTP_200_OK; data := Message "Job data removed successfully" |}
  else
    mret {| status_code := HTTP_404_NOT_FOUND; data := Error "Job not found" |}.

End Views.

Export Views.

(** ** Stores built by the service alone *)

Module Ledger.

(** The stores that the four writing operations of [ExtractionService]
    build from an empty database. *)
Definition service_built (w : World) : Prop :=
  ∃ w0 ops, empty_store w0 ∧ Forall service_op ops ∧ w = run ops w0.

(** The books are in order: each record belongs to a job; each job counts
    its records; a job that has records has a valid token and holds the
    record [user_1]; a job that is [completed] has records. *)
Definition ledger_ok (w : World) : Prop :=
  (∀ r, r ∈ records w → is_Some (jobs w !! job r)) ∧
  (∀ job_id j, jobs w !! job_id = Some j →
     record_count j = Z.of_nat (length (records_of job_id w)) ∧
     (records_of job_id w ≠ [] →
        validate_token (api_token j) = true ∧
        (job_id, "user_1") ∈ unique_key <$> records w) ∧
     (status j = "completed" → records_of job_id w ≠ [])).

(** The status is one of [STATUS_CHOICES]. *)
Definition declared (j : ExtractionJob) : Prop := status j ∈ STATUS_CHOICES.*1.

End Ledger.

Export Ledger.

(** * Properties *)

(** ** Running computations *)

Section Running.

Context {A B : Type}.

Lemma bind_ok (m : M A) (k : A → M B) w a w' :
  m w = (Ok a, w') → (m ≫= k) w = k a w'.
Proof. intros E. unfold mbind, M_bind, bind. by rewrite E. Qed.

Lemma bind_raise (m : M A) (k : A → M B) w e w' :
  m w = (Raise e, w') → (m ≫= k) w = (Raise e, w').
Proof. intros E. unfold mbind, M_bind, bind. by rewrite E. Qed.

Lemma try_ok (m : M A) (h : exn → M A) w a w' :
  m w = (Ok a, w') → try_except m h w = (Ok a, w').
Proof. intros E. unfold try_except. by rewrite E. Qed.

Lemma try_raise (m : M A) (h : exn → M A) w e w' :
  m w = (Raise e, w') → try_except m h w = h e w'.
Proof. intros E. unfold try_except. by rewrite E. Qed.

End Running.

Lemma quiet_refl w : quiet w w.
Proof. unfold quiet. auto with zarith. Qed.

Lemma quiet_trans w1 w2 w3 : quiet w1 w2 → quiet w2 w3 → quiet w1 w3.
Proof. unfold quiet. intros (-> & -> & ?) (-> & -> & ?). auto with zarith. Qed.

Ltac quiet_tac :=
  unfold quiet;
  cbn [jobs records clock with_clock with_cursor with_jobs with_records];
  repeat split; try done; try lia.

Lemma timezone_now_spec w :
  ∃ w', timezone_now w = (Ok (clock w'), w') ∧ quiet w w'.
Proof.
  exists (with_clock (clock w + Z.of_N (entropy w (cursor w)))
            (with_cursor (S (cursor w)) w)).
  split; [reflexivity|].
  pose proof (N2Z.is_nonneg (entropy w (cursor w))). quiet_tac.
Qed.

Lemma time_sleep_spec us w :
  (0 ≤ us)%Z → ∃ w', time_sleep us w = (Ok tt, w') ∧ quiet w w'.
Proof.
  intros ?. eexists. split; [reflexivity|]. quiet_tac.
Qed.

Lemma random_uniform_spec a b w :
  (a ≤ b)%Z →
  ∃ d w', random_uniform a b w = (Ok d, w') ∧ quiet w w' ∧
          (a * 1000000 ≤ d ≤ b * 1000000)%Z.
Proof.
  intros ?. do 2 eexists. split; [reflexivity|]. split.
  - quiet_tac.
  - pose proof (Z.mod_pos_bound (Z.of_N (entropy w (cursor w))) ((b - a) * 1000000 + 1)).
    lia.
Qed.

Lemma random_randint_spec a b w :
  (a ≤ b)%Z →
  ∃ n w', random_randint a b w = (Ok n, w') ∧ quiet w w' ∧ (a ≤ n ≤ b)%Z.
Proof.
  intros ?. do 2 eexists. split; [reflexivity|]. split.
  - quiet_tac.
  - pose proof (Z.mod_pos_bound (Z.of_N (entropy w (cursor w))) (b - a + 1)). lia.
Qed.

Lemma objects_get_Some job_id j w :
  jobs w !! job_id = Some j → ORM.objects_get job_id w = (Ok j, w).
Proof.
  intros E. unfold ORM.objects_get, mbind, M_bind, bind, get_world. by rewrite E.
Qed.

Lemma objects_get_None job_id w :
  jobs w !! job_id = None →
  ∃ msg, ORM.objects_get job_id w = (Raise (DoesNotExist msg), w).
Proof.
  intros E. eexists. unfold ORM.objects_get, mbind, M_bind, bind, get_world.
  by rewrite E.
Qed.

Lemma save_spec job_id j w :
  ∃ w', ORM.save job_id j w = (Ok (set_updated_at (clock w') j), w') ∧
        jobs w' = <[job_id := set_updated_at (clock w') j]> (jobs w) ∧
        records w' = records w ∧ (clock w ≤ clock w')%Z.
Proof.
  destruct (timezone_now_spec w) as (w1 & E1 & J1 & R1 & C1).
  exists (with_jobs (<[job_id := set_updated_at (clock w1) j]> (jobs w1)) w1).
  split; [|simpl; by rewrite J1].
  unfold ORM.save. by rewrite (bind_ok _ _ _ _ _ E1).
Qed.

Lemma stamp_spec rs w :
  ∃ rs' w', ORM.stamp rs w = (Ok rs', w') ∧ quiet w w' ∧
            unique_key <$> rs' = unique_key <$> rs.
Proof.
  revert w. induction rs as [|r rs IH]; intros w.
  - exists [], w. split; [done|]. split; [apply quiet_refl|done].
  - destruct (timezone_now_spec w) as (w1 & E1 & Q1).
    destruct (IH w1) as (rs' & w2 & E2 & Q2 & K).
    exists (set_rec_created_at (clock w1) r :: rs'), w2. split.
    + simpl. rewrite (bind_ok _ _ _ _ _ E1). by rewrite (bind_ok _ _ _ _ _ E2).
    + split; [by eapply quiet_trans|]. by rewrite !fmap_cons, K.
Qed.

Lemma insertable_keys rs rs' w w' :
  unique_key <$> rs' = unique_key <$> rs → records w' = records w →
  ORM.insertable rs' w' ↔ ORM.insertable rs w.
Proof. unfold ORM.insertable. by intros -> ->. Qed.

Lemma bulk_create_ok rs w :
  ORM.insertable rs w →
  ∃ rs' w', ORM.bulk_create rs w = (Ok tt, w') ∧
            jobs w' = jobs w ∧ records w' = records w ++ rs' ∧
            unique_key <$> rs' = unique_key <$> rs ∧ (clock w ≤ clock w')%Z.
Proof.
  intros Hins. destruct (stamp_spec rs w) as (rs' & w1 & E & (J & R & C) & K).
  exists rs', (with_records (records w1 ++ rs') w1). split.
  - unfold ORM.bulk_create. rewrite (bind_ok _ _ _ _ _ E).
    unfold mbind, M_bind, bind, get_world.
    rewrite bool_decide_eq_true_2; [done|]. by apply (insertable_keys rs rs' w w1).
  - simpl. by rewrite R.
Qed.

Lemma bulk_create_refused rs w :
  ¬ ORM.insertable rs w →
  ∃ msg w', ORM.bulk_create rs w = (Raise (IntegrityError msg), w') ∧ quiet w w'.
Proof.
  intros Hins. destruct (stamp_spec rs w) as (rs' & w1 & E & Q & K).
  eexists _, w1. split; [|done].
  unfold ORM.bulk_create. rewrite (bind_ok _ _ _ _ _ E).
  unfold mbind, M_bind, bind, get_world.
  rewrite bool_decide_eq_false_2; [done|].
  destruct Q as (J & R & C). by rewrite (insertable_keys rs rs' w w1).
Qed.

Lemma extract_data_invalid tok w :
  validate_token tok = false →
  extract_data tok w = (Raise (ValueError "Invalid API token"), w).
Proof. intros E. unfold extract_data. by rewrite E. Qed.

Lemma extract_data_valid tok w :
  validate_token tok = true →
  ∃ n w', extract_data tok w = (Ok (mock_item <$> range 1 n), w') ∧
          quiet w w' ∧ (5 ≤ n ≤ 25)%Z.
Proof.
  intros E. unfold extract_data. rewrite E. cbn [negb].
  destruct (random_uniform_spec 1 3 w) as (d & w1 & E1 & Q1 & B1); [lia|].
  destruct (time_sleep_spec d w1) as (w2 & E2 & Q2); [lia|].
  destruct (random_randint_spec 5 25 w2) as (n & w3 & E3 & Q3 & B3); [lia|].
  exists n, w3. split.
  - rewrite (bind_ok _ _ _ _ _ E1), (bind_ok _ _ _ _ _ E2), (bind_ok _ _ _ _ _ E3). done.
  - split; [|done]. eauto using quiet_trans.
Qed.

Lemma length_range a b : length (range a b) = Z.to_nat (b - a).
Proof. unfold range. apply length_seqZ. Qed.

Lemma elem_of_range a b i : i ∈ range a b ↔ (a ≤ i < b)%Z.
Proof. unfold range. rewrite elem_of_seqZ. lia. Qed.

(** ** The batch of a run *)

Lemma batch_keys job_id n :
  unique_key <$> batch job_id n = (λ i, (job_id, "user_" +:+ pretty i)) <$> range 1 n.
Proof. unfold batch. rewrite <- !list_fmap_compose. done. Qed.

Lemma batch_length job_id n : length (batch job_id n) = Z.to_nat (n - 1).
Proof. unfold batch. by rewrite !length_fmap, length_range. Qed.

Lemma batch_job job_id n : Forall (λ r, job r = job_id) (batch job_id n).
Proof.
  unfold batch. rewrite <- list_fmap_compose. apply Forall_fmap, Forall_true. done.
Qed.

#[local] Instance mock_key_inj (job_id : N) :
  Inj (=) (=) (λ i : Z, (job_id, "user_" +:+ pretty i)).
Proof.
  intros i1 i2 E. injection E as E. by apply (inj pretty).
Qed.

Lemma batch_insertable job_id n w :
  (n ≤ 25)%Z → no_mock_record job_id w → ORM.insertable (batch job_id n) w.
Proof.
  intros Hn Hfree. unfold ORM.insertable. rewrite batch_keys. split.
  - apply (NoDup_fmap_2 _), NoDup_seqZ.
  - apply Forall_fmap, Forall_forall. intros i Hi%elem_of_range. simpl.
    intros (r & Hk & Hr)%list_elem_of_fmap. injection Hk as Hj Hid.
    apply (Hfree r i); [done|done|lia|done].
Qed.

(** ** One run of [_process_extraction] *)

Lemma mark_in_progress_spec job_id j w :
  jobs w !! job_id = Some j →
  ∃ t0 w1,
    let j1 := set_updated_at (clock w1)
                (set_start_time (Some t0) (set_status "in_progress" j)) in
    mark_in_progress job_id w = (Ok j1, w1) ∧
    jobs w1 = <[job_id := j1]> (jobs w) ∧ records w1 = records w ∧
    (clock w ≤ t0 ≤ clock w1)%Z.
Proof.
  intros Hj.
  destruct (timezone_now_spec w) as (wa & Ea & Ja & Ra & Ca).
  destruct (save_spec job_id
              (set_start_time (Some (clock wa)) (set_status "in_progress" j)) wa)
    as (w1 & E1 & J1 & R1 & C1).
  exists (clock wa), w1. cbv zeta. split; [|split; [|split]].
  - unfold mark_in_progress.
    rewrite (bind_ok _ _ _ _ _ (objects_get_Some _ _ _ Hj)).
    by rewrite (bind_ok _ _ _ _ _ Ea).
  - by rewrite J1, Ja.
  - by rewrite R1, Ra.
  - lia.
Qed.

Lemma mark_in_progress_missing job_id w :
  jobs w !! job_id = None →
  ∃ msg, mark_in_progress job_id w = (Raise (DoesNotExist msg), w).
Proof.
  intros Hj. destruct (objects_get_None _ _ Hj) as (msg & E).
  exists msg. unfold mark_in_progress. by rewrite (bind_raise _ _ _ _ _ E).
Qed.

Lemma run_extraction_valid job_id j w :
  validate_token (api_token j) = true →
  ∃ n, (5 ≤ n ≤ 25)%Z ∧
    ((ORM.insertable (batch job_id n) w ∧
      ∃ new t1 w',
        let j' := set_updated_at (clock w')
                    (set_record_count (n - 1)
                       (set_end_time (Some t1) (set_status "completed" j))) in
        run_extraction job_id j w = (Ok tt, w') ∧
        jobs w' = <[job_id := j']> (jobs w) ∧ records w' = records w ++ new ∧
        unique_key <$> new = unique_key <$> batch job_id n ∧
        (clock w ≤ t1 ≤ clock w')%Z)
     ∨
     (¬ ORM.insertable (batch job_id n) w ∧
      ∃ msg w', run_extraction job_id j w = (Raise (IntegrityError msg), w') ∧
                quiet w w')).
Proof.
  intros Hv.
  destruct (extract_data_valid _ w Hv) as (n & wa & Ea & (Ja & Ra & Ca) & Hn).
  exists n. split; [done|].
  pose proof (insertable_keys (batch job_id n) (batch job_id n) w wa eq_refl Ra) as Hiff.
  destruct (decide (ORM.insertable (batch job_id n) w)) as [Hins|Hins]; [left|right];
    (split; [done|]).
  - destruct (bulk_create_ok (batch job_id n) wa) as (new & wb & Eb & Jb & Rb & Kb & Cb);
      [by apply Hiff|].
    destruct (timezone_now_spec wb) as (wc & Ec & Jc & Rc & Cc).
    destruct (save_spec job_id
                (set_record_count (n - 1)
                   (set_end_time (Some (clock wc)) (set_status "completed" j))) wc)
      as (w' & E' & J' & R' & C').
    exists new, (clock wc), w'. cbv zeta. split; [|split; [|split; [|split]]].
    + unfold run_extraction. rewrite (bind_ok _ _ _ _ _ Ea).
      fold (batch job_id n). rewrite (bind_ok _ _ _ _ _ Eb), (bind_ok _ _ _ _ _ Ec).
      replace (Z.of_nat (length (batch job_id n))) with (n - 1)%Z
        by (rewrite batch_length; lia).
      by rewrite (bind_ok _ _ _ _ _ E').
    + by rewrite J', Jc, Jb, Ja.
    + by rewrite R', Rc, Rb, Ra.
    + done.
    + lia.
  - destruct (bulk_create_refused (batch job_id n) wa) as (msg & wb & Eb & Qb);
      [by rewrite Hiff|].
    exists msg, wb. split.
    + unfold run_extraction. rewrite (bind_ok _ _ _ _ _ Ea).
      fold (batch job_id n). by rewrite (bind_raise _ _ _ _ _ Eb).
    + by eapply quiet_trans.
Qed.

Lemma run_extraction_invalid job_id j w :
  validate_token (api_token j) = false →
  run_extraction job_id j w = (Raise (ValueError "Invalid API token"), w).
Proof.
  intros Hv. unfold run_extraction.
  by rewrite (bind_raise _ _ _ _ _ (extract_data_invalid _ w Hv)).
Qed.

Lemma on_exception_bound job_id j e w :
  ∃ t1 w',
    let message := if is_ValueError e then str e else "Unexpected error: " +:+ str e in
    let j' := set_updated_at (clock w')
                (set_end_time (Some t1)
                   (set_error_message message (set_status "failed" j))) in
    on_exception job_id (Some j) e w = (Ok tt, w') ∧
    jobs w' = <[job_id := j']> (jobs w) ∧ records w' = records w ∧
    (clock w ≤ t1 ≤ clock w')%Z.
Proof.
  destruct (timezone_now_spec w) as (wa & Ea & Ja & Ra & Ca).
  destruct (save_spec job_id
              (set_end_time (Some (clock wa))
                 (set_error_message
                    (if is_ValueError e then str e else "Unexpected error: " +:+ str e)
                    (set_status "failed" j))) wa)
    as (w' & E' & J' & R' & C').
  exists (clock wa), w'. cbv zeta. split; [|split; [|split]].
  - unfold on_exception. rewrite (bind_ok _ _ _ _ _ Ea).
    by rewrite (bind_ok _ _ _ _ _ E').
  - by rewrite J', Ja.
  - by rewrite R', Ra.
  - lia.
Qed.

Lemma process_missing job_id w :
  jobs w !! job_id = None →
  ∃ msg, _process_extraction job_id w = (Raise (UnboundLocalError msg), w).
Proof.
  intros Hj. destruct (mark_in_progress_missing _ _ Hj) as (msg & E).
  eexists. unfold _process_extraction. rewrite E. reflexivity.
Qed.

Lemma process_outcome job_id j w :
  jobs w !! job_id = Some j →
  ∃ j' new w' t0 t1,
    _process_extraction job_id w = (Ok tt, w') ∧
    jobs w' = <[job_id := j']> (jobs w) ∧
    records w' = records w ++ new ∧
    run_result job_id w j j' new ∧
    api_token j' = api_token j ∧
    start_time j' = Some t0 ∧ end_time j' = Some t1 ∧
    (clock w ≤ t0 ≤ t1)%Z ∧ (t1 ≤ clock w')%Z.
Proof.
  intros Hj.
  destruct (mark_in_progress_spec _ _ _ Hj) as (t0 & w1 & E1 & J1 & R1 & C1).
  cbv zeta in E1, J1.
  set (j1 := set_updated_at (clock w1)
               (set_start_time (Some t0) (set_status "in_progress" j))) in *.
  unfold _process_extraction. rewrite E1.
  destruct (validate_token (api_token j)) eqn:Hv.
  - destruct (run_extraction_valid job_id j1 w1 Hv) as (n & Hn & [(Hins & H)|(Hins & H)]).
    + destruct H as (new & t1 & w' & E' & J' & R' & K' & C'). cbv zeta in E', J'.
      eexists _, new, w', t0, t1. split; [by rewrite (try_ok _ _ _ _ _ E')|].
      split; [by rewrite J', J1, insert_insert_eq|].
      split; [by rewrite R', R1|].
      split; [|simpl; repeat split; lia].
      eapply (run_completed _ _ _ _ _ n); try done.
      by apply (insertable_keys (batch job_id n) (batch job_id n) w w1).
    + destruct H as (msg & wa & Ea & Ja & Ra & Ca).
      destruct (on_exception_bound job_id j1 (IntegrityError msg) wa)
        as (t1 & w' & E' & J' & R' & C'). cbv zeta in E', J'.
      eexists _, [], w', t0, t1. split; [by rewrite (try_raise _ _ _ _ _ Ea)|].
      split; [by rewrite J', Ja, J1, insert_insert_eq|].
      split; [by rewrite R', Ra, R1, app_nil_r|].
      split; [|simpl; repeat split; lia].
      eapply (run_refused _ _ _ _ _ n msg); try done.
      by rewrite <- (insertable_keys (batch job_id n) (batch job_id n) w w1).
  - pose proof (run_extraction_invalid job_id j1 w1 Hv) as Ea.
    destruct (on_exception_bound job_id j1 (ValueError "Invalid API token") w1)
      as (t1 & w' & E' & J' & R' & C'). cbv zeta in E', J'.
    eexists _, [], w', t0, t1. split; [by rewrite (try_raise _ _ _ _ _ Ea)|].
    split; [by rewrite J', J1, insert_insert_eq|].
    split; [by rewrite R', R1, app_nil_r|].
    split; [|simpl; repeat split; lia].
    by apply run_invalid.
Qed.

Lemma keys_job job_id (new : list ExtractedRecord) n :
  unique_key <$> new = unique_key <$> batch job_id n →
  Forall (λ r, job r = job_id) new ∧ length new = Z.to_nat (n - 1).
Proof.
  intros K. split.
  - assert (Forall (λ k : N * string, k.1 = job_id) (unique_key <$> new)) as H.
    { rewrite K. apply Forall_fmap. eapply Forall_impl; [apply batch_job|done]. }
    apply Forall_fmap in H. done.
  - rewrite <- batch_length with (job_id := job_id).
    by rewrite <- (length_fmap unique_key new), K, length_fmap.
Qed.

Lemma records_of_app job_id w w' new :
  records w' = records w ++ new → Forall (λ r, job r = job_id) new →
  records_of job_id w' = records_of job_id w ++ new.
Proof.
  unfold records_of. intros -> H. rewrite filter_app. f_equal.
  induction H as [|r new Hr _ IH]; [done|].
  by rewrite filter_cons_True, IH.
Qed.

Lemma records_of_app_other job_id other w w' new :
  records w' = records w ++ new → Forall (λ r, job r = other) new →
  job_id ≠ other → records_of job_id w' = records_of job_id w.
Proof.
  unfold records_of. intros -> H Hne. rewrite filter_app.
  rewrite <- (app_nil_r (filter _ (records w))) at 2. f_equal.
  induction H as [|r new Hr _ IH]; [done|].
  rewrite filter_cons_False; [done|congruence].
Qed.

Lemma prefix_starts_with p s : String.prefix p s = true ↔ Spec.starts_with p s.
Proof.
  unfold Spec.starts_with. revert s. induction p as [|c p IH]; intros s.
  - split; [exists s; by destruct s|by destruct s].
  - destruct s as [|c' s]; simpl.
    + split; [done|by intros (rest & ?)].
    + destruct (Ascii.ascii_dec c c') as [->|Hc].
      * rewrite IH. split; intros (rest & E); exists rest.
        -- by rewrite E.
        -- by injection E.
      * split; [done|]. intros (rest & E). by injection E.
Qed.

(** ** The other operations *)

Lemma objects_create_spec fields w :
  ∃ job_id t1 t2 w',
    let j := set_updated_at t2 (set_created_at t1 fields) in
    (jobs w !! job_id = None ∧
     ORM.objects_create fields w = (Ok (job_id, j), w') ∧
     jobs w' = <[job_id := j]> (jobs w) ∧ records w' = records w)
    ∨
    (is_Some (jobs w !! job_id) ∧
     ∃ msg, ORM.objects_create fields w = (Raise (IntegrityError msg), w') ∧
            quiet w w').
Proof.
  pose (wa := with_cursor (S (cursor w)) w).
  assert (uuid4 w = (Ok (entropy w (cursor w)), wa)) as Ea by reflexivity.
  destruct (timezone_now_spec wa) as (wb & Eb & Qb).
  destruct (timezone_now_spec wb) as (wc & Ec & Qc).
  assert (quiet w wc) as (J & R & C).
  { apply (quiet_trans w wb wc); [|done].
    apply (quiet_trans w wa wb); [|done]. unfold wa. quiet_tac. }
  exists (entropy w (cursor w)), (clock wb), (clock wc).
  destruct (jobs w !! entropy w (cursor w)) as [j0|] eqn:Hj.
  - exists wc. right. split; [done|]. eexists. split; [|done].
    unfold ORM.objects_create.
    rewrite (bind_ok _ _ _ _ _ Ea), (bind_ok _ _ _ _ _ Eb), (bind_ok _ _ _ _ _ Ec).
    unfold mbind, M_bind, bind, get_world. rewrite J, Hj. reflexivity.
  - eexists. left. split; [done|]. split; [|split].
    + unfold ORM.objects_create.
      rewrite (bind_ok _ _ _ _ _ Ea), (bind_ok _ _ _ _ _ Eb), (bind_ok _ _ _ _ _ Ec).
      unfold mbind, M_bind, bind, get_world. rewrite J, Hj. reflexivity.
    + done.
    + done.
Qed.

Lemma cancel_job_missing job_id w :
  jobs w !! job_id = None → cancel_job job_id w = (Ok false, w).
Proof.
  intros Hj. destruct (objects_get_None _ _ Hj) as (msg & E).
  unfold cancel_job. by rewrite (try_raise _ _ _ _ _ (bind_raise _ _ _ _ _ E)).
Qed.

Lemma cancel_job_refused job_id j w :
  jobs w !! job_id = Some j → can_be_cancelled j = false →
  cancel_job job_id w = (Ok false, w).
Proof.
  intros Hj Hc. unfold cancel_job. erewrite try_ok; [done|].
  rewrite (bind_ok _ _ _ _ _ (objects_get_Some _ _ _ Hj)). by rewrite Hc.
Qed.

Lemma cancel_job_done job_id j w :
  jobs w !! job_id = Some j → can_be_cancelled j = true →
  ∃ t w',
    let j' := set_updated_at (clock w')
                (set_end_time (Some t) (set_status "cancelled" j)) in
    cancel_job job_id w = (Ok true, w') ∧
    jobs w' = <[job_id := j']> (jobs w) ∧ records w' = records w ∧
    (clock w ≤ t ≤ clock w')%Z.
Proof.
  intros Hj Hc.
  destruct (timezone_now_spec w) as (wa & Ea & Ja & Ra & Ca).
  destruct (save_spec job_id
              (set_end_time (Some (clock wa)) (set_status "cancelled" j)) wa)
    as (w' & E' & J' & R' & C').
  exists (clock wa), w'. cbv zeta. split; [|split; [|split]].
  - unfold cancel_job. erewrite try_ok; [done|].
    rewrite (bind_ok _ _ _ _ _ (objects_get_Some _ _ _ Hj)). rewrite Hc.
    by rewrite (bind_ok _ _ _ _ _ Ea), (bind_ok _ _ _ _ _ E').
  - by rewrite J', Ja.
  - by rewrite R', Ra.
  - lia.
Qed.

Lemma remove_job_data_missing job_id w :
  jobs w !! job_id = None → remove_job_data job_id w = (Ok false, w).
Proof.
  intros Hj. destruct (objects_get_None _ _ Hj) as (msg & E).
  unfold remove_job_data. by rewrite (try_raise _ _ _ _ _ (bind_raise _ _ _ _ _ E)).
Qed.

Lemma filter_twice {A} (P : A → Prop) `{!∀ x, Decision (P x)} (l : list A) :
  filter P (filter P l) = filter P l.
Proof.
  induction l as [|x l IH]; [done|].
  destruct (decide (P x)).
  - by rewrite !filter_cons_True, IH.
  - by rewrite filter_cons_False.
Qed.

Lemma remove_job_data_done job_id j w :
  jobs w !! job_id = Some j →
  ∃ w', remove_job_data job_id w = (Ok true, w') ∧
        jobs w' = base.delete job_id (jobs w) ∧
        records w' = filter (λ r, job r ≠ job_id) (records w).
Proof.
  intros Hj. eexists. split; [|split].
  - unfold remove_job_data. erewrite try_ok; [done|].
    rewrite (bind_ok _ _ _ _ _ (objects_get_Some _ _ _ Hj)). reflexivity.
  - done.
  - simpl. apply filter_twice.
Qed.

Lemma process_manually_missing job_id w :
  jobs w !! job_id = None → process_extraction_manually job_id w = (Ok false, w).
Proof.
  intros Hj. destruct (process_missing _ _ Hj) as (msg & E).
  unfold process_extraction_manually.
  by rewrite (try_raise _ _ _ _ _ (bind_raise _ _ _ _ _ E)).
Qed.

Lemma process_manually_ok job_id w w' :
  _process_extraction job_id w = (Ok tt, w') →
  process_extraction_manually job_id w = (Ok true, w').
Proof.
  intros E. unfold process_extraction_manually.
  by rewrite (try_ok _ _ _ _ _ (bind_ok _ _ _ _ _ E)).
Qed.

Lemma exec_effect o w : effect w (exec o w) o.
Proof.
  destruct o as [fields|tok|job_id|job_id|job_id]; simpl.
  - destruct (objects_create_spec fields w)
      as (job_id & t1 & t2 & w' & [(Hj & E & J & R)|(Hj & msg & E & J & R & _)]);
      rewrite E; simpl.
    + by eapply effect_create.
    + by apply effect_none.
  - unfold start_extraction.
    destruct (objects_create_spec
                {| status := "pending"; api_token := tok;
                   result_data := result_data default_job;
                   error_message := error_message default_job;
                   record_count := record_count default_job;
                   start_time := start_time default_job;
                   end_time := end_time default_job;
                   created_at := created_at default_job;
                   updated_at := updated_at default_job |} w)
      as (job_id & t1 & t2 & w' & [(Hj & E & J & R)|(Hj & msg & E & J & R & _)]);
      rewrite E; simpl.
    + by refine (effect_start _ _ _ job_id _ Hj _ _ _ J R).
    + by apply effect_none.
  - destruct (jobs w !! job_id) as [j|] eqn:Hj.
    + destruct (process_outcome _ _ _ Hj)
        as (j' & new & w' & t0 & t1 & E & J & R & Hrun & _ & Hs & He & _).
      rewrite (process_manually_ok _ _ _ E). simpl. by eapply effect_process.
    + rewrite (process_manually_missing _ _ Hj). by apply effect_none.
  - destruct (jobs w !! job_id) as [j|] eqn:Hj.
    + destruct (can_be_cancelled j) eqn:Hc.
      * destruct (cancel_job_done _ _ _ Hj Hc) as (t & w' & E & J & R & _).
        rewrite E. simpl. by eapply effect_cancel.
      * rewrite (cancel_job_refused _ _ _ Hj Hc). by apply effect_none.
    + rewrite (cancel_job_missing _ _ Hj). by apply effect_none.
  - destruct (jobs w !! job_id) as [j|] eqn:Hj.
    + destruct (remove_job_data_done _ _ _ Hj) as (w' & E & J & R).
      rewrite E. simpl. by eapply effect_remove.
    + rewrite (remove_job_data_missing _ _ Hj). by apply effect_none.
Qed.

(** ** Invariants of the store *)

Lemma run_result_status job_id w j j' new :
  run_result job_id w j j' new → status j' = "completed" ∨ status j' = "failed".
Proof. intros [_ Hs|n _ _ _ Hs|n msg _ _ _ Hs]; auto. Qed.

Lemma run_result_new job_id w j j' new :
  run_result job_id w j j' new → Forall (λ r, job r = job_id) new.
Proof.
  intros [_ _ _ _ ->|n _ _ _ _ _ _ K|n msg _ _ _ _ _ _ ->]; [done| |done].
  by destruct (keys_job _ _ _ K).
Qed.

Lemma timestamps_kept_pending j :
  status j = "pending" → start_time j = None → end_time j = None → timestamps_kept j.
Proof.
  intros Hs Ht He. unfold timestamps_kept, terminal. rewrite Hs, He.
  rewrite !elem_of_cons, !elem_of_nil. split; [split|].
  - by intros [? ?].
  - intros [?|[?|[?|[]]]]; discriminate.
  - intros [?|[?|[?|[]]]]; discriminate.
Qed.

Lemma timestamps_kept_processed j t0 t1 :
  status j = "completed" ∨ status j = "failed" →
  start_time j = Some t0 → end_time j = Some t1 → timestamps_kept j.
Proof.
  intros Hs Ht He. unfold timestamps_kept, terminal. rewrite Ht, He.
  rewrite !elem_of_cons. split; [split|]; eauto. intros _. tauto.
Qed.

Lemma timestamps_kept_cancelled j t :
  status j = "cancelled" → end_time j = Some t → timestamps_kept j.
Proof.
  intros Hs He. unfold timestamps_kept, terminal. rewrite Hs, He.
  rewrite !elem_of_cons, !elem_of_nil. split; [split|]; eauto.
  intros [?|[?|[?|[]]]]; discriminate.
Qed.

Lemma kept_step o w :
  service_op o →
  (∀ job_id j, jobs w !! job_id = Some j → timestamps_kept j) →
  ∀ job_id j, jobs (exec o w) !! job_id = Some j → timestamps_kept j.
Proof.
  intros Hop Hinv job_id j.
  pose proof (exec_effect o w) as Heff. revert Heff.
  generalize (exec o w) as w'. intros w' Heff.
  destruct Heff
    as [? J R|fields k t1 t2 Hk J R|tok k j0 Hk Hs Ht He J R
       |k j0 j' new t0 t1 Hk J R Hrun Ht He|k j0 t u Hk Hc J R|k j0 Hk J R];
    rewrite J; clear J.
  - apply Hinv.
  - destruct Hop.
  - intros [(<- & <-)|(_ & H)]%lookup_insert_Some; [|by eapply Hinv].
    by apply timestamps_kept_pending.
  - intros [(<- & <-)|(_ & H)]%lookup_insert_Some; [|by eapply Hinv].
    eapply timestamps_kept_processed; [|done..]. by eapply run_result_status.
  - intros [(<- & <-)|(_ & H)]%lookup_insert_Some; [|by eapply Hinv].
    by eapply timestamps_kept_cancelled.
  - intros (_ & H)%lookup_delete_Some. by eapply Hinv.
Qed.

Lemma kept_run ops w :
  Forall service_op ops →
  (∀ job_id j, jobs w !! job_id = Some j → timestamps_kept j) →
  ∀ job_id j, jobs (run ops w) !! job_id = Some j → timestamps_kept j.
Proof.
  intros Hops. revert w. induction Hops as [|o ops Ho _ IH]; intros w Hinv; [done|].
  simpl. apply IH. by apply kept_step.
Qed.

Lemma records_of_nil job_id w :
  records_of job_id w = [] ↔ ∀ r, r ∈ records w → job r ≠ job_id.
Proof.
  unfold records_of. split.
  - intros E r Hr Hjob.
    assert (r ∈ filter (λ r, job r = job_id) (records w)) as H
      by by apply list_elem_of_filter.
    rewrite E in H. by apply elem_of_nil in H.
  - intros H. apply elem_of_nil_inv. intros r (Hjob & Hr)%list_elem_of_filter.
    by apply (H r).
Qed.

Lemma store_ok_step o w : store_ok w → store_ok (exec o w).
Proof.
  intros (Hfk & Hpend).
  pose proof (exec_effect o w) as Heff. revert Heff.
  generalize (exec o w) as w'. intros w' Heff.
  destruct Heff
    as [? J R|fields k t1 t2 Hk J R|tok k j0 Hk Hs Ht He J R
       |k j0 j' new t0 t1 Hk J R Hrun Ht He|k j0 t u Hk Hc J R|k j0 Hk J R];
    unfold store_ok; setoid_rewrite records_of_nil; rewrite J, R;
    setoid_rewrite records_of_nil in Hpend.
  - done.
  - split.
    + intros r Hr. rewrite lookup_insert_is_Some. right. split; [|by apply Hfk].
      intros ->. destruct (Hfk r Hr) as [? ?]. congruence.
    + intros id j [(<- & <-)|(Hne & H)]%lookup_insert_Some Hst r Hr.
      * intros Hjob. destruct (Hfk r Hr) as [? ?]. congruence.
      * by eapply Hpend.
  - split.
    + intros r Hr. rewrite lookup_insert_is_Some. right. split; [|by apply Hfk].
      intros ->. destruct (Hfk r Hr) as [? ?]. congruence.
    + intros id j [(<- & <-)|(Hne & H)]%lookup_insert_Some Hst r Hr.
      * intros Hjob. destruct (Hfk r Hr) as [? ?]. congruence.
      * by eapply Hpend.
  - pose proof (run_result_new _ _ _ _ _ Hrun) as Hnew.
    rewrite Forall_forall in Hnew. split.
    + intros r [Hr|Hr]%elem_of_app; rewrite lookup_insert_is_Some.
      * destruct (decide (k = job r)); [by left|right; split; [done|by apply Hfk]].
      * left. by rewrite (Hnew r Hr).
    + intros id j [(<- & <-)|(Hne & H)]%lookup_insert_Some Hst r Hr.
      * destruct (run_result_status _ _ _ _ _ Hrun) as [E|E]; rewrite E in Hst;
          discriminate.
      * apply elem_of_app in Hr as [Hr|Hr]; [by eapply Hpend|].
        rewrite (Hnew r Hr). done.
  - split.
    + intros r Hr. rewrite lookup_insert_is_Some.
      destruct (decide (k = job r)); [by left|right; split; [done|by apply Hfk]].
    + intros id j [(<- & <-)|(Hne & H)]%lookup_insert_Some Hst r Hr.
      * discriminate.
      * by eapply Hpend.
  - split.
    + intros r (Hne & Hr)%list_elem_of_filter.
      rewrite lookup_delete_is_Some. split; [done|by apply Hfk].
    + intros id j (Hne & H)%lookup_delete_Some Hst r (_ & Hr)%list_elem_of_filter.
      by eapply Hpend.
Qed.

Lemma store_ok_run ops w : store_ok w → store_ok (run ops w).
Proof.
  revert w. induction ops as [|o ops IH]; intros w H; [done|].
  simpl. by apply IH, store_ok_step.
Qed.

Lemma reachable_store_ok w : reachable w → store_ok w.
Proof.
  intros (w0 & ops & (J & R) & ->). apply store_ok_run.
  unfold store_ok, records_of. rewrite J, R. split.
  - by intros r ?%elem_of_nil.
  - by intros ? ? ?%lookup_empty_Some.
Qed.

(** ** The claims *)

(** C6. [validate_token] answers true exactly for the tokens that are not
    empty, are longer than 10 characters and do not start with "invalid". *)
Theorem validate_token_iff (token : string) :
  validate_token token = true ↔
  token ≠ "" ∧ (10 < String.length token)%nat ∧ ¬ Spec.starts_with "invalid" token.
Proof.
  unfold validate_token.
  rewrite !andb_true_iff, !negb_true_iff, Nat.ltb_lt.
  rewrite <- prefix_starts_with, not_true_iff_false.
  destruct (String.eqb_spec token ""); intuition congruence.
Qed.

(** C3. On a store without the job, [_process_extraction] does not end
    with the [DoesNotExist] of the lookup: the handler that catches it
    uses the local [job], which was never bound, and raises
    [UnboundLocalError]; [process_extraction_manually] answers false.
    The store is left as it was. *)
Theorem process_missing_job_unbound_local :
  let w := empty_world 1000 7 in
  _process_extraction 3 w =
    (Raise (UnboundLocalError
       "cannot access local variable 'job' where it is not associated with a value"), w) ∧
  process_extraction_manually 3 w = (Ok false, w).
Proof. split; reflexivity. Qed.

(** C4 (as stated) fails: the job that the test suite creates with
    [api_token='token1', status='completed', record_count=10] has a token
    that fails [validate_token]; processing it ends in [failed] with its
    [record_count] still 10. *)
Lemma invalid_token_keeps_record_count :
  let j := seeded "completed" "token1" 10 None None in
  let w := world_with 7 j 0 in
  validate_token (api_token j) = false ∧
  ∃ j', jobs (snd (_process_extraction 7 w)) !! 7%N = Some j' ∧
        status j' = "failed" ∧ record_count j' = 10%Z ∧ record_count j' ≠ 0%Z.
Proof. split; [reflexivity|]. eexists. split; [by vm_compute|done]. Qed.

(** C4 (amended). For every job whose stored token fails
    [validate_token], [_process_extraction] returns normally and leaves
    the job [failed], with the message "Invalid API token", which is not
    empty, with [end_time] set and with [record_count] as it was before,
    hence 0 if it was 0; no record is persisted. *)
Theorem process_invalid_token (w : World) (job_id : N) (j : ExtractionJob) :
  jobs w !! job_id = Some j →
  validate_token (api_token j) = false →
  ∃ w' j' t1,
    _process_extraction job_id w = (Ok tt, w') ∧
    jobs w' !! job_id = Some j' ∧
    status j' = "failed" ∧
    error_message j' = "Invalid API token" ∧ error_message j' ≠ "" ∧
    end_time j' = Some t1 ∧
    record_count j' = record_count j ∧
    (record_count j = 0%Z → record_count j' = 0%Z) ∧
    records w' = records w.
Proof.
  intros Hj Hv.
  destruct (process_outcome _ _ _ Hj)
    as (j' & new & w' & t0 & t1 & E & J & R & Hrun & _ & _ & Hend & _).
  exists w', j', t1.
  destruct Hrun as [_ Hs Hm Hc ->| n Hv' | n msg Hv']; [|congruence..].
  rewrite J, lookup_insert_eq, Hm, app_nil_r in *.
  repeat split; try done. congruence.
Qed.

Lemma process_invalid_token_witness :
  ∃ w' j' t1,
    _process_extraction 7 (world_with 7 (seeded "pending" "invalid_token" 0 None None) 0)
      = (Ok tt, w') ∧
    jobs w' !! 7%N = Some j' ∧
    status j' = "failed" ∧
    error_message j' = "Invalid API token" ∧ error_message j' ≠ "" ∧
    end_time j' = Some t1 ∧
    record_count j' = 0%Z ∧
    (0%Z = 0%Z → record_count j' = 0%Z) ∧
    records w' = [].
Proof.
  apply (process_invalid_token
           (world_with 7 (seeded "pending" "invalid_token" 0 None None) 0) 7
           (seeded "pending" "invalid_token" 0 None None)).
  - vm_compute. reflexivity.
  - vm_compute. reflexivity.
Defined.

(** C1 (as stated) fails: a job with a valid token that was processed
    once holds the records [user_1], [user_2], ...; processing it again
    builds records of the same names, [unique_together] refuses them and
    the job ends [failed]. *)
Lemma process_twice_fails :
  let w := run [Start "valid_test_token_12345"; Process 7] (empty_world 1000 7) in
  ∃ j j',
    jobs w !! 7%N = Some j ∧ validate_token (api_token j) = true ∧
    jobs (snd (_process_extraction 7 w)) !! 7%N = Some j' ∧
    status j' = "failed" ∧ status j' ≠ "completed".
Proof.
  do 2 eexists. split; [by vm_compute|]. split; [reflexivity|].
  split; [by vm_compute|]. done.
Qed.

(** C1 (amended). For every job whose stored token satisfies
    [validate_token] and for which no record named [user_1] ... [user_24]
    is persisted yet (as for every job without records),
    [_process_extraction] returns normally with the job [completed],
    [record_count] equal to the number of records that the run persisted
    for the job, which are all its records when it had none, [end_time]
    set and [start_time] set and not after [end_time]. *)
Theorem process_valid_token (w : World) (job_id : N) (j : ExtractionJob) :
  jobs w !! job_id = Some j →
  validate_token (api_token j) = true →
  no_mock_record job_id w →
  ∃ w' j' t0 t1,
    _process_extraction job_id w = (Ok tt, w') ∧
    jobs w' !! job_id = Some j' ∧
    status j' = "completed" ∧
    Z.of_nat (length (records_of job_id w')) =
      (Z.of_nat (length (records_of job_id w)) + record_count j')%Z ∧
    (records_of job_id w = [] →
       record_count j' = Z.of_nat (length (records_of job_id w'))) ∧
    start_time j' = Some t0 ∧ end_time j' = Some t1 ∧ (t0 ≤ t1)%Z.
Proof.
  intros Hj Hv Hfree.
  destruct (process_outcome _ _ _ Hj)
    as (j' & new & w' & t0 & t1 & E & J & R & Hrun & _ & Hstart & Hend & Ht & _).
  exists w', j', t0, t1.
  destruct Hrun as [Hv'| n _ Hn Hins Hs Hm Hc K | n msg _ Hn Hins]; [congruence| |].
  - destruct (keys_job _ _ _ K) as (Hjob & Hlen).
    assert (Z.of_nat (length (records_of job_id w')) =
            (Z.of_nat (length (records_of job_id w)) + record_count j')%Z) as Hcount.
    { rewrite (records_of_app job_id w w' new R Hjob), length_app, Hlen, Hc. lia. }
    rewrite J, lookup_insert_eq. repeat split; try done; try lia.
    intros Hnone. rewrite Hnone in Hcount. simpl in Hcount. lia.
  - destruct Hins. apply batch_insertable; [lia|done].
Qed.

Lemma process_valid_token_witness :
  let w := snd (start_extraction "valid_test_token_12345" (empty_world 1000 7)) in
  ∃ w' j' t0 t1,
    _process_extraction 7 w = (Ok tt, w') ∧
    jobs w' !! 7%N = Some j' ∧
    status j' = "completed" ∧
    Z.of_nat (length (records_of 7 w')) =
      (Z.of_nat (length (records_of 7 w)) + record_count j')%Z ∧
    (records_of 7 w = [] → record_count j' = Z.of_nat (length (records_of 7 w'))) ∧
    start_time j' = Some t0 ∧ end_time j' = Some t1 ∧ (t0 ≤ t1)%Z.
Proof.
  intros w. eapply (process_valid_token w 7).
  - vm_compute. reflexivity.
  - vm_compute. reflexivity.
  - intros r i Hr. vm_compute in Hr. by apply elem_of_nil in Hr.
Defined.

(** C9. For every job already [completed], [failed] or [cancelled],
    [_process_extraction] runs again: its first statements save the job as
    [in_progress], the rest of the run starts from that state, and the
    job ends [completed] or [failed] with [start_time] and [end_time]
    overwritten by readings of the clock taken during this run. *)
Theorem process_terminal_reruns (w : World) (job_id : N) (j : ExtractionJob) :
  jobs w !! job_id = Some j →
  terminal (status j) →
  ∃ j1 w1 j' w' t0 t1,
    mark_in_progress job_id w = (Ok j1, w1) ∧
    jobs w1 !! job_id = Some j1 ∧ status j1 = "in_progress" ∧
    _process_extraction job_id w =
      try_except (run_extraction job_id j1) (on_exception job_id (Some j1)) w1 ∧
    _process_extraction job_id w = (Ok tt, w') ∧
    jobs w' !! job_id = Some j' ∧
    status j' ∈ ["completed"; "failed"] ∧
    start_time j' = Some t0 ∧ end_time j' = Some t1 ∧
    (clock w ≤ t0 ≤ t1)%Z ∧ (t1 ≤ clock w')%Z.
Proof.
  intros Hj _.
  destruct (mark_in_progress_spec _ _ _ Hj) as (t & w1 & E1 & J1 & _).
  cbv zeta in E1, J1.
  destruct (process_outcome _ _ _ Hj)
    as (j' & new & w' & t0 & t1 & E & J & R & Hrun & _ & Hstart & Hend & Ht & Ht').
  eexists _, w1, j', w', t0, t1.
  split; [exact E1|]. split; [by rewrite J1, lookup_insert_eq|].
  split; [done|]. split; [unfold _process_extraction; by rewrite E1|].
  split; [done|]. split; [by rewrite J, lookup_insert_eq|].
  split; [|done].
  destruct Hrun as [_ Hs|n _ _ _ Hs|n msg _ _ _ Hs]; rewrite Hs, !elem_of_cons; auto.
Qed.

Lemma process_terminal_reruns_witness :
  let j := seeded "cancelled" "valid_test_token_12345" 0 (Some 5%Z) (Some 9%Z) in
  let w := world_with 7 j 0 in
  ∃ j1 w1 j' w' t0 t1,
    mark_in_progress 7 w = (Ok j1, w1) ∧
    jobs w1 !! 7%N = Some j1 ∧ status j1 = "in_progress" ∧
    _process_extraction 7 w =
      try_except (run_extraction 7 j1) (on_exception 7 (Some j1)) w1 ∧
    _process_extraction 7 w = (Ok tt, w') ∧
    jobs w' !! 7%N = Some j' ∧
    status j' ∈ ["completed"; "failed"] ∧
    start_time j' = Some t0 ∧ end_time j' = Some t1 ∧
    (clock w ≤ t0 ≤ t1)%Z ∧ (t1 ≤ clock w')%Z.
Proof.
  intros j w. apply (process_terminal_reruns w 7 j).
  - vm_compute. reflexivity.
  - apply (bool_decide_unpack _). vm_compute. exact I.
Defined.

(** C2 (as stated) fails: a job that is started and then cancelled has
    left [pending], yet [cancel_job] writes [status] and [end_time] only,
    so its [start_time] is still unset. *)
Lemma cancelled_pending_job_has_no_start_time :
  let ops := [Start "valid_test_token_12345"; Cancel 7] in
  let w := run ops (empty_world 1000 7) in
  Forall service_op ops ∧
  ∃ j, jobs w !! 7%N = Some j ∧
       status j = "cancelled" ∧ start_time j = None ∧
       ¬ timestamps_specified j.
Proof.
  split; [by repeat constructor|].
  eexists. split; [by vm_compute|]. split; [done|]. split; [done|].
  intros (_ & H). by destruct H as [? ?].
Qed.

(** C2 (amended). Every sequence of operations of the service
    ([start_extraction], [process_extraction], [cancel_job],
    [remove_job_data]), run on a store where the following holds (the
    empty store is one), leaves a store where it holds: for every job,
    [end_time] is set if and only if the status is [completed], [failed]
    or [cancelled], and [start_time] is set when the status is
    [in_progress], [completed] or [failed]. *)
Theorem service_keeps_timestamps (w : World) (ops : list op) :
  (∀ job_id j, jobs w !! job_id = Some j → timestamps_kept j) →
  Forall service_op ops →
  ∀ job_id j, jobs (run ops w) !! job_id = Some j →
    (is_Some (end_time j) ↔ status j ∈ ["completed"; "failed"; "cancelled"]) ∧
    (status j ∈ ["in_progress"; "completed"; "failed"] → is_Some (start_time j)).
Proof.
  intros Hinv Hops job_id j Hj. by apply (kept_run ops w Hops Hinv job_id j).
Qed.

Lemma service_keeps_timestamps_witness :
  let ops := [Start "valid_test_token_12345"; Process 7; Start "invalid"; Cancel 7] in
  let w := run ops (empty_world 1000 7) in
  ∃ j, jobs w !! 7%N = Some j ∧
    (is_Some (end_time j) ↔ status j ∈ ["completed"; "failed"; "cancelled"]) ∧
    (status j ∈ ["in_progress"; "completed"; "failed"] → is_Some (start_time j)).
Proof.
  intros ops w. eexists. split; [vm_compute; reflexivity|].
  apply (service_keeps_timestamps (empty_world 1000 7) ops) with (job_id := 7%N).
  - intros job_id j Hj. vm_compute in Hj. discriminate.
  - unfold ops. repeat constructor.
  - vm_compute. reflexivity.
Defined.

(** C5. Every call of [extract_data] with a valid token returns between 4
    and 24 items, each of these counts is returned for some answer of the
    random source, and in every store that the application can build a
    pending job with a valid token is [completed] by
    [_process_extraction] with a [record_count] between 4 and 24. *)
Theorem extract_data_count :
  (∀ tok w, validate_token tok = true →
     ∃ data w', extract_data tok w = (Ok data, w') ∧
                (4 ≤ length data ≤ 24)%nat) ∧
  (∀ tok (k : nat), validate_token tok = true → (4 ≤ k ≤ 24)%nat →
     ∃ w data w', extract_data tok w = (Ok data, w') ∧ length data = k) ∧
  (∀ w job_id j,
     reachable w → jobs w !! job_id = Some j → status j = "pending" →
     validate_token (api_token j) = true →
     ∃ w' j', _process_extraction job_id w = (Ok tt, w') ∧
              jobs w' !! job_id = Some j' ∧
              status j' = "completed" ∧ (4 ≤ record_count j' ≤ 24)%Z).
Proof.
  split; [|split].
  - intros tok w Hv. destruct (extract_data_valid tok w Hv) as (n & w' & E & _ & Hn).
    exists (mock_item <$> range 1 n), w'. split; [done|].
    rewrite length_fmap, length_range. lia.
  - intros tok k Hv Hk. exists (empty_world 0 (N.of_nat (k - 4))).
    eexists _, _. split.
    + unfold extract_data. rewrite Hv. reflexivity.
    + rewrite length_fmap, length_range. cbn [entropy empty_world with_cursor with_clock].
      rewrite Z.mod_small; lia.
  - intros w job_id j Hreach Hj Hs Hv.
    destruct (reachable_store_ok w Hreach) as (_ & Hpend).
    pose proof (Hpend job_id j Hj Hs) as Hnone. rewrite records_of_nil in Hnone.
    assert (no_mock_record job_id w) as Hfree.
    { intros r i Hr Hjob. by destruct (Hnone r Hr). }
    destruct (process_outcome _ _ _ Hj)
      as (j' & new & w' & t0 & t1 & E & J & R & Hrun & _).
    exists w', j'. split; [done|]. split; [by rewrite J, lookup_insert_eq|].
    destruct Hrun as [Hv'| n _ Hn Hins Hst Hm Hc K | n msg _ Hn Hins]; [congruence| |].
    + split; [done|lia].
    + destruct Hins. apply batch_insertable; [lia|done].
Qed.

Lemma extract_data_count_witness :
  (∃ data w', extract_data "valid_test_token_12345" (empty_world 1000 7) = (Ok data, w') ∧
              (4 ≤ length data ≤ 24)%nat) ∧
  (∃ w data w', extract_data "valid_test_token_12345" w = (Ok data, w') ∧
                length data = 24%nat) ∧
  (let w := run [Start "valid_test_token_12345"] (empty_world 1000 7) in
   ∃ w' j', _process_extraction 7 w = (Ok tt, w') ∧
            jobs w' !! 7%N = Some j' ∧
            status j' = "completed" ∧ (4 ≤ record_count j' ≤ 24)%Z).
Proof.
  destruct extract_data_count as (H1 & H2 & H3). split; [|split].
  - apply H1. vm_compute. reflexivity.
  - apply (H2 "valid_test_token_12345" 24%nat); [vm_compute; reflexivity|lia].
  - intros w.
    eapply (H3 w 7%N).
    + exists (empty_world 1000 7), [Start "valid_test_token_12345"].
      split; [|reflexivity]. split; reflexivity.
    + vm_compute. reflexivity.
    + reflexivity.
    + vm_compute. reflexivity.
Defined.

(** C7. [cancel_job] answers false and leaves the whole world as it was
    when no job has the given id, and when the job's status is neither
    [pending] nor [in_progress] (a [completed] job in particular);
    otherwise it answers true and the job is stored with status
    [cancelled] and with [end_time] set to a reading of the clock taken
    during the call, its token, [record_count], [start_time],
    [error_message], [result_data] and [created_at], the other jobs and
    the records being as before. *)
Theorem cancel_job_cases (w : World) (job_id : N) :
  (jobs w !! job_id = None → cancel_job job_id w = (Ok false, w)) ∧
  (∀ j, jobs w !! job_id = Some j → status j ∉ ["pending"; "in_progress"] →
        cancel_job job_id w = (Ok false, w)) ∧
  (∀ j, jobs w !! job_id = Some j → status j = "completed" →
        cancel_job job_id w = (Ok false, w)) ∧
  (∀ j, jobs w !! job_id = Some j → status j ∈ ["pending"; "in_progress"] →
        ∃ w' j' t,
          cancel_job job_id w = (Ok true, w') ∧
          jobs w' !! job_id = Some j' ∧
          status j' = "cancelled" ∧
          end_time j' = Some t ∧ (clock w ≤ t ≤ clock w')%Z ∧
          api_token j' = api_token j ∧ record_count j' = record_count j ∧
          start_time j' = start_time j ∧ error_message j' = error_message j ∧
          result_data j' = result_data j ∧ created_at j' = created_at j ∧
          (∀ other, other ≠ job_id → jobs w' !! other = jobs w !! other) ∧
          records w' = records w).
Proof.
  split; [apply cancel_job_missing|]. split; [|split].
  - intros j Hj Hs. apply (cancel_job_refused _ j); [done|].
    unfold can_be_cancelled. by apply bool_decide_eq_false_2.
  - intros j Hj Hs. apply (cancel_job_refused _ j); [done|].
    unfold can_be_cancelled. by rewrite Hs.
  - intros j Hj Hs.
    destruct (cancel_job_done job_id j w Hj) as (t & w' & E & J & R & C).
    { unfold can_be_cancelled. by apply bool_decide_eq_true_2. }
    cbv zeta in J. eexists w', _, t. split; [done|].
    split; [by rewrite J, lookup_insert_eq|]. simpl.
    repeat split; try done; try lia.
    intros other Hne. by rewrite J, lookup_insert_ne.
Qed.

Lemma cancel_job_cases_witness :
  let finished := seeded "completed" "test_token" 0 (Some 5%Z) (Some 9%Z) in
  let broken := seeded "failed" "test_token" 0 (Some 5%Z) (Some 9%Z) in
  let fresh := seeded "pending" "test_token" 0 None None in
  cancel_job 3 (empty_world 1000 7) = (Ok false, empty_world 1000 7) ∧
  cancel_job 7 (world_with 7 broken 2) = (Ok false, world_with 7 broken 2) ∧
  cancel_job 7 (world_with 7 finished 2) = (Ok false, world_with 7 finished 2) ∧
  ∃ w' j' t,
    cancel_job 7 (world_with 7 fresh 2) = (Ok true, w') ∧
    jobs w' !! 7%N = Some j' ∧
    status j' = "cancelled" ∧
    end_time j' = Some t ∧ (clock (world_with 7 fresh 2) ≤ t ≤ clock w')%Z ∧
    api_token j' = api_token fresh ∧ record_count j' = record_count fresh ∧
    start_time j' = start_time fresh ∧ error_message j' = error_message fresh ∧
    result_data j' = result_data fresh ∧ created_at j' = created_at fresh ∧
    (∀ other, other ≠ 7%N →
       jobs w' !! other = jobs (world_with 7 fresh 2) !! other) ∧
    records w' = records (world_with 7 fresh 2).
Proof.
  intros finished broken fresh. split; [|split; [|split]].
  - apply (proj1 (cancel_job_cases (empty_world 1000 7) 3)). vm_compute. reflexivity.
  - apply (proj1 (proj2 (cancel_job_cases (world_with 7 broken 2) 7)) broken).
    + vm_compute. reflexivity.
    + apply (bool_decide_unpack _). vm_compute. exact I.
  - apply (proj1 (proj2 (proj2 (cancel_job_cases (world_with 7 finished 2) 7))) finished).
    + vm_compute. reflexivity.
    + reflexivity.
  - apply (proj2 (proj2 (proj2 (cancel_job_cases (world_with 7 fresh 2) 7))) fresh).
    + vm_compute. reflexivity.
    + apply (bool_decide_unpack _). vm_compute. exact I.
Defined.

(** ** Statistics *)

Lemma filter_completed_timed_spec l :
  filter_completed_timed l = filter Spec.timed_completed l.
Proof.
  unfold filter_completed_timed. apply list_filter_iff. intros j.
  unfold Spec.timed_completed. rewrite <- !not_eq_None_Some. done.
Qed.

Lemma duration_seconds_timed j w :
  is_Some (start_time j) → is_Some (end_time j) →
  duration_seconds j w = (Ok (Qmake (Spec.span j) 1000000), w).
Proof.
  intros [s Hs] [e He]. unfold duration_seconds, Spec.span. by rewrite Hs, He.
Qed.

Lemma collect_durations_timed l w :
  Forall Spec.timed_completed l →
  collect_durations l w = (Ok ((λ j, Qmake (Spec.span j) 1000000) <$> l), w).
Proof.
  induction 1 as [|j l (_ & Hs & He) _ IH]; [done|].
  simpl. rewrite (bind_ok _ _ _ _ _ (duration_seconds_timed j w Hs He)).
  by rewrite (bind_ok _ _ _ _ _ IH).
Qed.

Lemma get_job_statistics_eq w :
  let all := objects_all w in
  get_job_statistics w =
    (Ok {| total_jobs := count all;
           completed_jobs := count (filter_status "completed" all);
           failed_jobs := count (filter_status "failed" all);
           pending_jobs := count (filter_status "pending" all);
           in_progress_jobs := count (filter_status "in_progress" all);
           cancelled_jobs := count (filter_status "cancelled" all);
           average_duration_seconds :=
             average ((λ j, Qmake (Spec.span j) 1000000)
                        <$> filter Spec.timed_completed all);
           total_records_extracted :=
             or_0 (aggregate_Sum (record_count <$> all)) |}, w).
Proof.
  intros all. unfold get_job_statistics.
  rewrite (bind_ok get_world _ w w w eq_refl). fold all.
  rewrite filter_completed_timed_spec.
  erewrite bind_ok; [reflexivity|].
  apply collect_durations_timed, Forall_forall.
  by intros j (? & _)%list_elem_of_filter.
Qed.

Lemma fold_left_add_total l acc :
  fold_left Z.add l acc = (acc + Spec.total l)%Z.
Proof.
  revert acc. induction l as [|z l IH]; intros acc; simpl; [lia|].
  rewrite IH. unfold Spec.total. simpl. lia.
Qed.

Lemma or_0_aggregate_Sum l : or_0 (aggregate_Sum l) = Spec.total l.
Proof.
  destruct l as [|z l]; [done|]. unfold aggregate_Sum, or_0.
  rewrite fold_left_add_total.
  destruct (Z.eqb_spec (0 + Spec.total (z :: l)) 0); lia.
Qed.

Lemma sum_Q_spans (zs : list Z) (acc : Q) :
  (fold_left Qplus ((λ z, Qmake z 1000000) <$> zs) acc ==
   acc + Qmake (Spec.total zs) 1000000)%Q.
Proof.
  revert acc. induction zs as [|z zs IH]; intros acc; simpl.
  - unfold Spec.total. simpl. unfold Qeq, Qplus. simpl. lia.
  - rewrite IH. unfold Spec.total. simpl. unfold Qeq, Qplus. simpl. lia.
Qed.

Lemma average_spans (l : list ExtractionJob) :
  (average ((λ j, Qmake (Spec.span j) 1000000) <$> l) ==
   match l with
   | [] => 0
   | _ :: _ => Qmake (Spec.total (Spec.span <$> l)) (Pos.of_nat (length l) * 1000000)
   end)%Q.
Proof.
  destruct l as [|j l]; [reflexivity|].
  set (f := λ j, Qmake (Spec.span j) 1000000).
  change (average (f <$> j :: l))
    with (sum_Q (f <$> j :: l) / inject_Z (count (f <$> j :: l)))%Q.
  unfold sum_Q, count, f.
  rewrite (list_fmap_compose Spec.span (λ z, Qmake z 1000000)).
  rewrite sum_Q_spans. rewrite !length_fmap.
  generalize (Spec.total (Spec.span <$> j :: l)). intros T.
  cbn [length]. rewrite <- Pos.of_nat_succ.
  replace (Z.of_nat (S (length l))) with (Z.pos (Pos.of_succ_nat (length l))) by lia.
  generalize (Pos.of_succ_nat (length l)). intros p.
  unfold Qeq, Qdiv, Qmult, Qinv, Qplus, inject_Z. simpl. lia.
Qed.

Lemma count_by_status (l : list ExtractionJob) :
  Forall (λ j, status j ∈ STATUS_CHOICES.*1) l →
  (count (filter_status "completed" l) + count (filter_status "failed" l) +
   count (filter_status "pending" l) + count (filter_status "in_progress" l) +
   count (filter_status "cancelled" l))%Z = count l.
Proof.
  unfold count, filter_status.
  induction 1 as [|j l Hj _ IH]; [done|].
  rewrite !filter_cons. cbn [length]. rewrite Nat2Z.inj_succ, <- IH.
  simpl in Hj. rewrite !elem_of_cons, elem_of_nil in Hj.
  destruct Hj as [E|[E|[E|[E|[E|[]]]]]]; rewrite E;
    repeat (case_decide; [try discriminate|try done]);
    cbn [length]; lia.
Qed.

(** C8. [get_job_statistics] returns normally without touching the
    world; its [average_duration_seconds] is the mean of
    [end_time - start_time] over the jobs that are [completed] and have
    both timestamps, and it is 0 when there is no such job; its
    [total_records_extracted] is the sum of [record_count] over all jobs;
    on an empty store every count, the average and the total are 0. *)
Theorem statistics_average_and_total (w : World) :
  ∃ st,
    get_job_statistics w = (Ok st, w) ∧
    (average_duration_seconds st == Spec.mean_duration (objects_all w))%Q ∧
    (filter Spec.timed_completed (objects_all w) = [] →
       average_duration_seconds st = 0%Q) ∧
    total_records_extracted st = Spec.total (record_count <$> objects_all w) ∧
    (jobs w = ∅ →
       total_jobs st = 0%Z ∧ completed_jobs st = 0%Z ∧ failed_jobs st = 0%Z ∧
       pending_jobs st = 0%Z ∧ in_progress_jobs st = 0%Z ∧
       cancelled_jobs st = 0%Z ∧
       average_duration_seconds st = 0%Q ∧ total_records_extracted st = 0%Z).
Proof.
  eexists. split; [apply get_job_statistics_eq|]. cbn [average_duration_seconds
    total_records_extracted total_jobs completed_jobs failed_jobs pending_jobs
    in_progress_jobs cancelled_jobs].
  split; [|split; [|split]].
  - unfold Spec.mean_duration. apply average_spans.
  - by intros ->.
  - apply or_0_aggregate_Sum.
  - intros Hempty. unfold objects_all. rewrite Hempty, map_to_list_empty.
    repeat split.
Qed.

Lemma statistics_average_and_total_witness :
  let w := world_with 7 (seeded "failed" "invalid_token" 0 (Some 5%Z) (Some 9%Z)) 0 in
  (∃ st, get_job_statistics w = (Ok st, w) ∧ average_duration_seconds st = 0%Q) ∧
  (∃ st, get_job_statistics (empty_world 1000 7) = (Ok st, empty_world 1000 7) ∧
         total_jobs st = 0%Z ∧ completed_jobs st = 0%Z ∧ failed_jobs st = 0%Z ∧
         pending_jobs st = 0%Z ∧ in_progress_jobs st = 0%Z ∧
         cancelled_jobs st = 0%Z ∧
         average_duration_seconds st = 0%Q ∧ total_records_extracted st = 0%Z).
Proof.
  intros w. split.
  - destruct (statistics_average_and_total w) as (st & E & _ & Hnone & _).
    exists st. split; [exact E|]. apply Hnone. vm_compute. reflexivity.
  - destruct (statistics_average_and_total (empty_world 1000 7))
      as (st & E & _ & _ & _ & Hempty).
    exists st. split; [exact E|]. apply Hempty. reflexivity.
Defined.

(** C10. On every store in which each job has one of the five declared
    statuses, the five counts that [get_job_statistics] returns add up to
    its [total_jobs]. *)
Theorem statistics_counts_add_up (w : World) :
  (∀ job_id j, jobs w !! job_id = Some j → status j ∈ STATUS_CHOICES.*1) →
  ∃ st,
    get_job_statistics w = (Ok st, w) ∧
    (completed_jobs st + failed_jobs st + pending_jobs st +
     in_progress_jobs st + cancelled_jobs st)%Z = total_jobs st.
Proof.
  intros Hst. eexists. split; [apply get_job_statistics_eq|].
  cbn [total_jobs completed_jobs failed_jobs pending_jobs in_progress_jobs
       cancelled_jobs].
  apply count_by_status. unfold objects_all.
  apply Forall_fmap, Forall_forall. intros [job_id j] Hj%elem_of_map_to_list.
  by apply (Hst job_id).
Qed.

Lemma statistics_counts_add_up_witness :
  let w := world_with 7 (seeded "completed" "test_token_completed" 5
                           (Some 5%Z) (Some 9%Z)) 0 in
  ∃ st,
    get_job_statistics w = (Ok st, w) ∧
    (completed_jobs st + failed_jobs st + pending_jobs st +
     in_progress_jobs st + cancelled_jobs st)%Z = total_jobs st.
Proof.
  intros w. apply (statistics_counts_add_up w).
  intros job_id j Hj. unfold w, world_with in Hj. cbn [jobs] in Hj.
  apply lookup_singleton_Some in Hj as (_ & <-).
  apply (bool_decide_unpack _). vm_compute. exact I.
Defined.

(** ** Further properties of the service *)

Lemma records_of_removed job_id w w' :
  records w' = filter (λ r, job r ≠ job_id) (records w) →
  records_of job_id w' = [].
Proof.
  intros R. apply records_of_nil. rewrite R.
  by intros r (Hne & _)%list_elem_of_filter.
Qed.

Lemma records_of_removed_other job_id other w w' :
  records w' = filter (λ r, job r ≠ job_id) (records w) →
  other ≠ job_id → records_of other w' = records_of other w.
Proof.
  unfold records_of. intros -> Hne.
  induction (records w) as [|r l IH]; [done|].
  destruct (decide (job r = other)) as [E|E].
  - rewrite (filter_cons_True (λ r, job r ≠ job_id)) by congruence.
    by rewrite !filter_cons_True, IH.
  - rewrite (filter_cons_False (λ r, job r = other) r l) by done.
    destruct (decide (job r ≠ job_id)).
    + by rewrite filter_cons_True, filter_cons_False.
    + by rewrite filter_cons_False.
Qed.

Lemma objects_create_at fields w k w1 :
  uuid4 w = (Ok k, w1) →
  ∃ t1 t2 w',
    let j := set_updated_at t2 (set_created_at t1 fields) in
    match jobs w !! k with
    | None =>
        ORM.objects_create fields w = (Ok (k, j), w') ∧
        jobs w' = <[k := j]> (jobs w) ∧ records w' = records w
    | Some _ =>
        (∃ msg, ORM.objects_create fields w = (Raise (IntegrityError msg), w')) ∧
        jobs w' = jobs w ∧ records w' = records w
    end.
Proof.
  intros Ea.
  assert (jobs w1 = jobs w ∧ records w1 = records w) as (Ja & Ra).
  { unfold uuid4, draw in Ea. by injection Ea as _ <-. }
  destruct (timezone_now_spec w1) as (wb & Eb & Jb & Rb & _).
  destruct (timezone_now_spec wb) as (wc & Ec & Jc & Rc & _).
  assert (jobs wc = jobs w) as J by by rewrite Jc, Jb.
  assert (records wc = records w) as R by by rewrite Rc, Rb.
  exists (clock wb), (clock wc). cbv zeta.
  destruct (jobs w !! k) as [j0|] eqn:Hk.
  - exists wc. split; [|done]. eexists.
    unfold ORM.objects_create.
    rewrite (bind_ok _ _ _ _ _ Ea), (bind_ok _ _ _ _ _ Eb), (bind_ok _ _ _ _ _ Ec).
    unfold mbind, M_bind, bind, get_world. rewrite J, Hk. reflexivity.
  - eexists. split; [|split].
    + unfold ORM.objects_create.
      rewrite (bind_ok _ _ _ _ _ Ea), (bind_ok _ _ _ _ _ Eb), (bind_ok _ _ _ _ _ Ec).
      unfold mbind, M_bind, bind, get_world. rewrite J, Hk. reflexivity.
    + done.
    + done.
Qed.

(** X1. [start_extraction] stores whatever token it is given.  Let [k] be
    the key that [uuid.uuid4] answers.  When no job has the key [k], the
    call returns normally for every token, valid or not, and inserts under
    [k] a job in status [pending] that carries the token as given, with no
    timestamps, no error message and a [record_count] of 0, nothing else
    in the two tables changing.  When a job already has the key [k], the
    call raises [IntegrityError] and the tables are as before. *)
Theorem start_extraction_outcome (api_token : string) (w : World) (k : N) (w1 : World) :
  uuid4 w = (Ok k, w1) →
  match jobs w !! k with
  | None =>
      ∃ j w',
        start_extraction api_token w = (Ok (k, j), w') ∧
        jobs w' !! k = Some j ∧
        (∀ other, other ≠ k → jobs w' !! other = jobs w !! other) ∧
        records w' = records w ∧
        status j = "pending" ∧ Models.api_token j = api_token ∧
        record_count j = 0%Z ∧ start_time j = None ∧ end_time j = None ∧
        error_message j = "" ∧ result_data j = None
  | Some _ =>
      ∃ msg w',
        start_extraction api_token w = (Raise (IntegrityError msg), w') ∧
        jobs w' = jobs w ∧ records w' = records w
  end.
Proof.
  intros Hk. unfold start_extraction.
  destruct (objects_create_at
              {| status := "pending"; Models.api_token := api_token;
                 result_data := result_data default_job;
                 error_message := error_message default_job;
                 record_count := record_count default_job;
                 start_time := start_time default_job;
                 end_time := end_time default_job;
                 created_at := created_at default_job;
                 updated_at := updated_at default_job |} w k w1 Hk)
    as (t1 & t2 & w' & H). cbv zeta in H.
  destruct (jobs w !! k) as [j0|].
  - destruct H as ((msg & E) & J & R). by exists msg, w'.
  - destruct H as (E & J & R). eexists _, w'. split; [exact E|].
    split; [by rewrite J, lookup_insert_eq|].
    split; [intros other Hne; by rewrite J, lookup_insert_ne|].
    repeat split; done.
Qed.

Lemma start_extraction_outcome_witness :
  (∃ j w',
     start_extraction "invalid" (empty_world 1000 7) = (Ok (7%N, j), w') ∧
     jobs w' !! 7%N = Some j ∧
     (∀ other, other ≠ 7%N → jobs w' !! other = jobs (empty_world 1000 7) !! other) ∧
     records w' = records (empty_world 1000 7) ∧
     status j = "pending" ∧ Models.api_token j = "invalid" ∧
     record_count j = 0%Z ∧ start_time j = None ∧ end_time j = None ∧
     error_message j = "" ∧ result_data j = None) ∧
  (let w := run [Start "valid_test_token_12345"] (empty_world 1000 7) in
   ∃ msg w',
     start_extraction "another_valid_token" w = (Raise (IntegrityError msg), w') ∧
     jobs w' = jobs w ∧ records w' = records w).
Proof.
  split.
  - apply (start_extraction_outcome "invalid" (empty_world 1000 7) 7
             (with_cursor 1 (empty_world 1000 7))).
    reflexivity.
  - intros w.
    pose proof (start_extraction_outcome "another_valid_token" w 7
                  (with_cursor (S (cursor w)) w) eq_refl) as H.
    assert (is_Some (jobs w !! 7%N)) as [j0 Hj] by (vm_compute; eexists; reflexivity).
    rewrite Hj in H. exact H.
Defined.

(** X2. [remove_job_data] answers false and changes nothing when the job
    does not exist; otherwise it answers true, the job can no longer be
    fetched, none of its records is left, and every other job and the
    records of every other job are as before. *)
Theorem remove_job_data_cases (w : World) (job_id : N) :
  (jobs w !! job_id = None → remove_job_data job_id w = (Ok false, w)) ∧
  (is_Some (jobs w !! job_id) →
     ∃ w', remove_job_data job_id w = (Ok true, w') ∧
           jobs w' !! job_id = None ∧ records_of job_id w' = [] ∧
           ∀ other, other ≠ job_id →
             jobs w' !! other = jobs w !! other ∧
             records_of other w' = records_of other w).
Proof.
  split; [apply remove_job_data_missing|]. intros [j Hj].
  destruct (remove_job_data_done _ _ _ Hj) as (w' & E & J & R).
  exists w'. split; [done|]. split; [by rewrite J, lookup_delete_eq|].
  split; [by eapply records_of_removed|]. intros other Hne.
  split; [by rewrite J, lookup_delete_ne|by eapply records_of_removed_other].
Qed.

Lemma remove_job_data_cases_witness :
  let w := run [Start "valid_test_token_12345"; Process 7] (empty_world 1000 7) in
  remove_job_data 3 w = (Ok false, w) ∧
  ∃ w', remove_job_data 7 w = (Ok true, w') ∧
        jobs w' !! 7%N = None ∧ records_of 7 w' = [] ∧
        ∀ other, other ≠ 7%N →
          jobs w' !! other = jobs w !! other ∧
          records_of other w' = records_of other w.
Proof.
  intros w. split.
  - apply (proj1 (remove_job_data_cases w 3)). vm_compute. reflexivity.
  - apply (proj2 (remove_job_data_cases w 7)). vm_compute. eexists. reflexivity.
Defined.

(** X3. [process_extraction_manually] never raises, and its answer only
    tells whether the job exists: it is true for every existing job, also
    when the extraction failed and the job was saved as [failed]. *)
Theorem process_manually_answer (w : World) (job_id : N) :
  ∃ w', process_extraction_manually job_id w
        = (Ok (bool_decide (is_Some (jobs w !! job_id))), w').
Proof.
  destruct (jobs w !! job_id) as [j|] eqn:Hj.
  - destruct (process_outcome _ _ _ Hj) as (j' & new & w' & t0 & t1 & E & _).
    exists w'. rewrite (process_manually_ok _ _ _ E).
    by rewrite bool_decide_eq_true_2.
  - exists w. rewrite (process_manually_missing _ _ Hj).
    rewrite bool_decide_eq_false_2; [done|]. by intros [? ?].
Qed.

(** X4. Cancelling is idempotent.  For every job key (a UUID, the only
    kind of id that the views pass on; an id that is not a UUID makes the
    lookup raise before any of this and is not a key), [cancel_job]
    answers a boolean, and cancelling right again answers false and
    changes nothing, whatever the first call did. *)
Theorem cancel_job_twice (w : World) (job_id : N) :
  ∃ b w', cancel_job job_id w = (Ok b, w') ∧
          cancel_job job_id w' = (Ok false, w').
Proof.
  destruct (jobs w !! job_id) as [j|] eqn:Hj.
  - destruct (can_be_cancelled j) eqn:Hc.
    + destruct (cancel_job_done _ _ _ Hj Hc) as (t & w' & E & J & _).
      exists true, w'. split; [done|]. cbv zeta in J.
      eapply cancel_job_refused; [by rewrite J, lookup_insert_eq|done].
    + exists false, w. by rewrite (cancel_job_refused _ _ _ Hj Hc).
  - exists false, w. by rewrite (cancel_job_missing _ _ Hj).
Qed.

(** X5. A job that was processed cannot be cancelled: after
    [_process_extraction] on an existing job, [cancel_job] answers false
    and changes nothing. *)
Theorem cancel_after_process (w : World) (job_id : N) :
  is_Some (jobs w !! job_id) →
  ∃ w', _process_extraction job_id w = (Ok tt, w') ∧
        cancel_job job_id w' = (Ok false, w').
Proof.
  intros [j Hj].
  destruct (process_outcome _ _ _ Hj)
    as (j' & new & w' & t0 & t1 & E & J & _ & Hrun & _).
  exists w'. split; [done|].
  apply (cancel_job_refused _ j'); [by rewrite J, lookup_insert_eq|].
  unfold can_be_cancelled.
  by destruct (run_result_status _ _ _ _ _ Hrun) as [-> | ->].
Qed.

Lemma cancel_after_process_witness :
  let w := run [Start "invalid"] (empty_world 1000 7) in
  ∃ w', _process_extraction 7 w = (Ok tt, w') ∧
        cancel_job 7 w' = (Ok false, w').
Proof.
  intros w. apply (cancel_after_process w 7). vm_compute. eexists. reflexivity.
Defined.

#[local] Instance mock_id_inj : Inj (=) (=) (λ i : Z, "user_" +:+ pretty i).
Proof. intros i1 i2 E. injection E as E. by apply (inj pretty). Qed.

(** X6. [extract_data] succeeds exactly for the tokens that
    [validate_token] accepts and raises [ValueError] with the message
    "Invalid API token", the world untouched, for the others.  The items
    it returns are numbered from 1 in order: the item at position [i] is
    named [user_(i+1)] with the email [user(i+1)@example.com], so the
    names of a batch are pairwise different; the tables are not touched. *)
Theorem extract_data_items (api_token : string) (w : World) :
  match extract_data api_token w with
  | (Ok data, w') =>
      validate_token api_token = true ∧
      jobs w' = jobs w ∧ records w' = records w ∧
      NoDup (item_id_from_service <$> data) ∧
      ∀ (i : nat) x, data !! i = Some x →
        item_id_from_service x = "user_" +:+ pretty (Z.of_nat i + 1)%Z ∧
        item_email x = "user" +:+ pretty (Z.of_nat i + 1)%Z +:+ "@example.com"
  | (Raise e, w') =>
      validate_token api_token = false ∧
      e = ValueError "Invalid API token" ∧ w' = w
  end.
Proof.
  destruct (validate_token api_token) eqn:Hv.
  - destruct (extract_data_valid _ w Hv) as (n & w' & E & (J & R & _) & Hn).
    rewrite E. split; [done|]. split; [done|]. split; [done|]. split.
    + rewrite <- list_fmap_compose. apply (NoDup_fmap_2 _), NoDup_seqZ.
    + intros i x Hx. rewrite list_lookup_fmap in Hx.
      destruct (range 1 n !! i) as [k|] eqn:Hk; [|done].
      injection Hx as <-. apply lookup_seqZ in Hk as (-> & _).
      by rewrite (Z.add_comm 1).
  - by rewrite (extract_data_invalid _ w Hv).
Qed.

Lemma extract_data_valid_elapsed tok w :
  validate_token tok = true →
  ∃ n w', extract_data tok w = (Ok (mock_item <$> range 1 n), w') ∧
          jobs w' = jobs w ∧ records w' = records w ∧
          (clock w + 1000000 ≤ clock w')%Z.
Proof.
  intros E. unfold extract_data. rewrite E. cbn [negb].
  destruct (random_uniform_spec 1 3 w) as (d & w1 & E1 & (J1 & R1 & C1) & B1); [lia|].
  destruct (random_randint_spec 5 25 (with_clock (clock w1 + d) w1))
    as (n & w3 & E3 & (J3 & R3 & C3) & B3); [lia|].
  exists n, w3. split.
  - rewrite (bind_ok _ _ _ _ _ E1).
    rewrite (bind_ok (time_sleep d) _ w1 tt (with_clock (clock w1 + d) w1) eq_refl).
    by rewrite (bind_ok _ _ _ _ _ E3).
  - simpl in J3, R3, C3. rewrite J3, R3. repeat split; try done. lia.
Qed.

Lemma run_extraction_elapsed job_id j w :
  match run_extraction job_id j w with
  | (Ok _, w') =>
      ∃ t1 n, jobs w' !! job_id =
                Some (set_updated_at (clock w')
                        (set_record_count n
                           (set_end_time (Some t1) (set_status "completed" j)))) ∧
              (clock w + 1000000 ≤ t1)%Z
  | (Raise _, _) => True
  end.
Proof.
  destruct (validate_token (api_token j)) eqn:Hv;
    [|by rewrite (run_extraction_invalid _ _ _ Hv)].
  destruct (extract_data_valid_elapsed _ w Hv) as (n & wa & Ea & Ja & Ra & Ca).
  unfold run_extraction. rewrite (bind_ok _ _ _ _ _ Ea). fold (batch job_id n).
  destruct (decide (ORM.insertable (batch job_id n) wa)) as [Hins|Hins].
  - destruct (bulk_create_ok _ wa Hins) as (new & wb & Eb & Jb & Rb & Kb & Cb).
    destruct (timezone_now_spec wb) as (wc & Ec & Jc & Rc & Cc).
    destruct (save_spec job_id
                (set_record_count (Z.of_nat (length (batch job_id n)))
                   (set_end_time (Some (clock wc)) (set_status "completed" j))) wc)
      as (w' & E' & J' & R' & C').
    rewrite (bind_ok _ _ _ _ _ Eb), (bind_ok _ _ _ _ _ Ec), (bind_ok _ _ _ _ _ E').
    exists (clock wc), (Z.of_nat (length (batch job_id n))).
    split; [by rewrite J', lookup_insert_eq|lia].
  - destruct (bulk_create_refused _ wa Hins) as (msg & wb & Eb & _).
    by rewrite (bind_raise _ _ _ _ _ Eb).
Qed.

(** X7. A job that [_process_extraction] leaves [completed] took at least
    one second: its [end_time] is at least 1 000 000 microseconds after its
    [start_time], and [duration_seconds] then answers at least 1 without
    reading the clock. *)
Theorem completed_run_takes_a_second (w : World) (job_id : N) :
  is_Some (jobs w !! job_id) →
  ∃ w' j', _process_extraction job_id w = (Ok tt, w') ∧
           jobs w' !! job_id = Some j' ∧
           (status j' = "completed" →
              ∃ t0 t1 q, start_time j' = Some t0 ∧ end_time j' = Some t1 ∧
                         (t0 + 1000000 ≤ t1)%Z ∧
                         duration_seconds j' w' = (Ok q, w') ∧ (1 <= q)%Q).
Proof.
  intros [j Hj].
  destruct (mark_in_progress_spec _ _ _ Hj) as (t0 & w1 & E1 & J1 & R1 & C1).
  cbv zeta in E1, J1.
  set (j1 := set_updated_at (clock w1)
               (set_start_time (Some t0) (set_status "in_progress" j))) in *.
  pose proof (run_extraction_elapsed job_id j1 w1) as Hrun.
  unfold _process_extraction. rewrite E1. unfold try_except.
  destruct (run_extraction job_id j1 w1) as [[[]|e] w'].
  - destruct Hrun as (t1 & n & Hj' & Ht). eexists w', _.
    split; [done|]. split; [exact Hj'|]. intros _.
    exists t0, t1, (Qmake (t1 - t0) 1000000).
    split; [done|]. split; [done|]. split; [lia|]. split; [done|].
    unfold Qle. simpl. lia.
  - destruct (on_exception_bound job_id j1 e w') as (t1 & w'' & E' & J' & _).
    cbv zeta in E', J'. rewrite E'. eexists w'', _.
    split; [done|]. split; [by rewrite J', lookup_insert_eq|]. discriminate.
Qed.

Lemma completed_run_takes_a_second_witness :
  let w := run [Start "valid_test_token_12345"] (empty_world 1000 7) in
  ∃ w' j', _process_extraction 7 w = (Ok tt, w') ∧
           jobs w' !! 7%N = Some j' ∧
           (status j' = "completed" →
              ∃ t0 t1 q, start_time j' = Some t0 ∧ end_time j' = Some t1 ∧
                         (t0 + 1000000 ≤ t1)%Z ∧
                         duration_seconds j' w' = (Ok q, w') ∧ (1 <= q)%Q).
Proof.
  intros w. apply (completed_run_takes_a_second w 7). vm_compute. eexists. reflexivity.
Defined.

(** X8. [_process_extraction] touches one job only: every other job is as
    before, no record of the table is removed or changed, the records it
    adds all belong to the given job, and when that job exists it still
    exists afterwards with the same token; when it does not exist, no job
    is created. *)
Theorem process_frame (w : World) (job_id : N) :
  ∃ r w' new,
    _process_extraction job_id w = (r, w') ∧
    records w' = records w ++ new ∧ Forall (λ x, job x = job_id) new ∧
    (∀ other, other ≠ job_id → jobs w' !! other = jobs w !! other) ∧
    match jobs w !! job_id with
    | Some j => ∃ j', jobs w' !! job_id = Some j' ∧ api_token j' = api_token j
    | None => jobs w' !! job_id = None ∧ new = []
    end.
Proof.
  destruct (jobs w !! job_id) as [j|] eqn:Hj.
  - destruct (process_outcome _ _ _ Hj)
      as (j' & new & w' & t0 & t1 & E & J & R & Hrun & Htok & _).
    exists (Ok tt), w', new. split; [done|]. split; [done|].
    split; [by eapply run_result_new|]. split.
    + intros other Hne. by rewrite J, lookup_insert_ne.
    + exists j'. by rewrite J, lookup_insert_eq.
  - destruct (process_missing _ _ Hj) as (msg & E).
    eexists _, w, []. split; [done|]. by rewrite app_nil_r.
Qed.

(** ** Integrity of the stores *)

Lemma keys_filter_NoDup (P : ExtractedRecord → Prop) `{!∀ r, Decision (P r)}
    (l : list ExtractedRecord) :
  NoDup (unique_key <$> l) → NoDup (unique_key <$> filter P l).
Proof.
  induction l as [|r l IH]; [done|].
  rewrite fmap_cons, NoDup_cons. intros (Hr & Hl).
  destruct (decide (P r)).
  - rewrite filter_cons_True by done. rewrite fmap_cons, NoDup_cons.
    split; [|by apply IH].
    intros (r' & Hk & (_ & Hr')%list_elem_of_filter)%list_elem_of_fmap.
    apply Hr, list_elem_of_fmap. eauto.
  - rewrite filter_cons_False by done. by apply IH.
Qed.

Lemma unique_step o w :
  NoDup (unique_key <$> records w) → NoDup (unique_key <$> records (exec o w)).
Proof.
  intros Hnd.
  pose proof (exec_effect o w) as Heff. revert Heff.
  generalize (exec o w) as w'. intros w' Heff.
  destruct Heff
    as [? J R|fields k t1 t2 Hk J R|tok k j0 Hk Hs Ht He J R
       |k j0 j' new t0 t1 Hk J R Hrun Ht He|k j0 t u Hk Hc J R|k j0 Hk J R];
    rewrite R; try done.
  - destruct Hrun as [_ _ _ _ ->|n _ _ (Hb & Hfresh) _ _ _ K|n msg _ _ _ _ _ _ ->];
      rewrite ?app_nil_r; try done.
    rewrite fmap_app, K. apply NoDup_app. split; [done|]. split; [|done].
    rewrite Forall_forall in Hfresh. intros key Hold Hnew. by apply (Hfresh key).
  - by apply keys_filter_NoDup.
Qed.

Lemma unique_run ops w :
  NoDup (unique_key <$> records w) → NoDup (unique_key <$> records (run ops w)).
Proof.
  revert w. induction ops as [|o ops IH]; intros w H; [done|].
  simpl. by apply IH, unique_step.
Qed.

(** X9. [unique_together] is never violated: in every store that the
    application can build from an empty database, no two records share
    both their job and their [id_from_service]. *)
Theorem reachable_records_unique (w : World) :
  reachable w → NoDup (unique_key <$> records w).
Proof.
  intros (w0 & ops & (_ & R) & ->). apply unique_run. rewrite R. constructor.
Qed.

Lemma reachable_records_unique_witness :
  NoDup (unique_key <$>
           records (run [Start "valid_test_token_12345"; Process 7; Process 7]
                      (empty_world 1000 7))).
Proof.
  apply reachable_records_unique.
  exists (empty_world 1000 7), [Start "valid_test_token_12345"; Process 7; Process 7].
  split; [split; reflexivity|reflexivity].
Defined.

(** X10. In every store that the application can build from an empty
    database, each record belongs to a job that exists, and a job that is
    still [pending] has no record. *)
Theorem reachable_records_owned (w : World) :
  reachable w →
  (∀ r, r ∈ records w → is_Some (jobs w !! job r)) ∧
  (∀ job_id j, jobs w !! job_id = Some j → status j = "pending" →
               records_of job_id w = []).
Proof. intros H. by apply reachable_store_ok. Qed.

Lemma reachable_records_owned_witness :
  records_of 7 (run [Start "valid_test_token_12345"] (empty_world 1000 7)) = [].
Proof.
  eapply (proj2 (reachable_records_owned
                   (run [Start "valid_test_token_12345"] (empty_world 1000 7)) _) 7%N).
  - vm_compute. reflexivity.
  - reflexivity.
  Unshelve.
  exists (empty_world 1000 7), [Start "valid_test_token_12345"].
  split; [split; reflexivity|reflexivity].
Defined.

(** ** The books of the stores built by the service *)

Lemma user_1_in_batch job_id n :
  (5 ≤ n)%Z → (job_id, "user_1") ∈ unique_key <$> batch job_id n.
Proof.
  intros Hn. rewrite batch_keys.
  assert ("user_1" = "user_" +:+ pretty 1%Z) as -> by (vm_compute; reflexivity).
  apply (list_elem_of_fmap_2 (λ i, (job_id, "user_" +:+ pretty i)) _ 1%Z).
  apply elem_of_range. lia.
Qed.

Lemma ledger_same_tables w w' :
  jobs w' = jobs w → records w' = records w → ledger_ok w → ledger_ok w'.
Proof. unfold ledger_ok, records_of. by intros -> ->. Qed.

Lemma ledger_insert_fresh w w' k j :
  jobs w !! k = None → jobs w' = <[k := j]> (jobs w) → records w' = records w →
  record_count j = 0%Z → status j = "pending" →
  ledger_ok w → ledger_ok w'.
Proof.
  intros Hk J R Hc Hs (Hfk & Hjobs).
  assert (records_of k w = []) as Hnone.
  { apply records_of_nil. intros r Hr <-. destruct (Hfk r Hr) as [? ?]. congruence. }
  unfold ledger_ok, records_of in *. rewrite J, R. split.
  - intros r Hr. rewrite lookup_insert_is_Some'. right. by apply Hfk.
  - intros id j' [(<- & <-)|(Hne & H)]%lookup_insert_Some; [|by apply Hjobs].
    rewrite Hnone, Hc, Hs. repeat split; done.
Qed.

Lemma ledger_update_same w w' k j j' :
  jobs w !! k = Some j → jobs w' = <[k := j']> (jobs w) → records w' = records w →
  record_count j' = record_count j → api_token j' = api_token j →
  status j' ≠ "completed" →
  ledger_ok w → ledger_ok w'.
Proof.
  intros Hk J R Hc Ht Hs (Hfk & Hjobs).
  unfold ledger_ok, records_of in *. rewrite J, R. split.
  - intros r Hr. rewrite lookup_insert_is_Some'. right. by apply Hfk.
  - intros id j'' [(<- & <-)|(Hne & H)]%lookup_insert_Some; [|by apply Hjobs].
    destruct (Hjobs k j Hk) as (H1 & H2 & _). rewrite Hc, Ht. done.
Qed.

Lemma ledger_completed w w' k j j' new n :
  jobs w !! k = Some j → jobs w' = <[k := j']> (jobs w) →
  records w' = records w ++ new →
  (5 ≤ n ≤ 25)%Z → ORM.insertable (batch k n) w →
  unique_key <$> new = unique_key <$> batch k n →
  record_count j' = (n - 1)%Z → api_token j' = api_token j →
  validate_token (api_token j) = true →
  ledger_ok w → ledger_ok w'.
Proof.
  intros Hk J R Hn (_ & Hfresh) K Hc Ht Hv (Hfk & Hjobs).
  destruct (keys_job _ _ _ K) as (Hjob & Hlen).
  assert (records_of k w = []) as Hnone.
  { destruct (records_of k w) eqn:E; [done|].
    destruct (Hjobs k j Hk) as (_ & H2 & _). rewrite E in H2.
    destruct H2 as (_ & Hin); [done|].
    rewrite Forall_forall in Hfresh.
    destruct (Hfresh (k, "user_1")); [apply user_1_in_batch; lia|done]. }
  assert ((k, "user_1") ∈ unique_key <$> records w') as Hone.
  { rewrite R, fmap_app, K, elem_of_app. right. apply user_1_in_batch. lia. }
  split.
  - rewrite J, R. intros r [Hr|Hr]%elem_of_app; rewrite lookup_insert_is_Some'.
    + right. by apply Hfk.
    + left. rewrite Forall_forall in Hjob. by rewrite (Hjob r Hr).
  - rewrite J. intros id j'' [(<- & <-)|(Hne & H)]%lookup_insert_Some.
    + rewrite (records_of_app k w w' new R Hjob), Hnone. simpl.
      rewrite Hc, Hlen, Ht. split; [lia|]. split; [done|]. intros _.
      destruct new; [simpl in Hlen; lia|done].
    + destruct (Hjobs id j'' H) as (H1 & H2 & H3).
      rewrite (records_of_app_other id k w w' new R Hjob) by done.
      split; [done|]. split; [|done]. intros Hne'.
      destruct (H2 Hne') as (Hv' & Hin). split; [done|].
      rewrite R, fmap_app, elem_of_app. by left.
Qed.

Lemma ledger_removed w w' k :
  jobs w' = base.delete k (jobs w) →
  records w' = filter (λ r, job r ≠ k) (records w) →
  ledger_ok w → ledger_ok w'.
Proof.
  intros J R (Hfk & Hjobs). split.
  - rewrite J, R. intros r (Hne & Hr)%list_elem_of_filter.
    rewrite lookup_delete_is_Some. split; [done|by apply Hfk].
  - rewrite J. intros id j (Hne & H)%lookup_delete_Some.
    destruct (Hjobs id j H) as (H1 & H2 & H3).
    rewrite (records_of_removed_other k id w w' R) by done.
    split; [done|]. split; [|done]. intros Hne'.
    destruct (H2 Hne') as (Hv & (r & Hkey & Hr)%list_elem_of_fmap). split; [done|].
    rewrite R. apply list_elem_of_fmap. exists r. split; [done|].
    apply list_elem_of_filter. split; [|done].
    injection Hkey as Hjob _. congruence.
Qed.

Lemma ledger_step o w : service_op o → ledger_ok w → ledger_ok (exec o w).
Proof.
  intros Hop Hok. destruct o as [fields|tok|k|k|k]; simpl; [done|..].
  - unfold start_extraction.
    destruct (objects_create_spec
                {| status := "pending"; api_token := tok;
                   result_data := result_data default_job;
                   error_message := error_message default_job;
                   record_count := record_count default_job;
                   start_time := start_time default_job;
                   end_time := end_time default_job;
                   created_at := created_at default_job;
                   updated_at := updated_at default_job |} w)
      as (k & t1 & t2 & w' & [(Hk & E & J & R)|(Hk & msg & E & J & R & _)]);
      rewrite E; simpl.
    + by eapply (ledger_insert_fresh w w' k).
    + by eapply ledger_same_tables.
  - destruct (jobs w !! k) as [j|] eqn:Hk.
    + destruct (process_outcome _ _ _ Hk)
        as (j' & new & w' & t0 & t1 & E & J & R & Hrun & Htok & _).
      rewrite (process_manually_ok _ _ _ E). simpl.
      destruct Hrun as [Hv Hs Hm Hc ->|n Hv Hn Hins Hs Hm Hc K|n msg Hv Hn Hins Hs Hm Hc ->].
      * rewrite app_nil_r in R.
        eapply (ledger_update_same w w' k j j'); try done. by rewrite Hs.
      * by eapply (ledger_completed w w' k j j' new n).
      * rewrite app_nil_r in R.
        eapply (ledger_update_same w w' k j j'); try done. by rewrite Hs.
    + by rewrite (process_manually_missing _ _ Hk).
  - destruct (jobs w !! k) as [j|] eqn:Hk.
    + destruct (can_be_cancelled j) eqn:Hc.
      * destruct (cancel_job_done _ _ _ Hk Hc) as (t & w' & E & J & R & _).
        rewrite E. simpl. cbv zeta in J.
        by eapply (ledger_update_same w w' k j).
      * by rewrite (cancel_job_refused _ _ _ Hk Hc).
    + by rewrite (cancel_job_missing _ _ Hk).
  - destruct (jobs w !! k) as [j|] eqn:Hk.
    + destruct (remove_job_data_done _ _ _ Hk) as (w' & E & J & R).
      rewrite E. simpl. by eapply ledger_removed.
    + by rewrite (remove_job_data_missing _ _ Hk).
Qed.

Lemma ledger_run ops w :
  Forall service_op ops → ledger_ok w → ledger_ok (run ops w).
Proof.
  intros Hops. revert w. induction Hops as [|o ops Ho _ IH]; intros w H; [done|].
  simpl. by apply IH, ledger_step.
Qed.

Lemma service_built_ledger w : service_built w → ledger_ok w.
Proof.
  intros (w0 & ops & (J & R) & Hops & ->). apply ledger_run; [done|].
  unfold ledger_ok. rewrite J, R. split.
  - by intros r ?%elem_of_nil.
  - by intros ? ? ?%lookup_empty_Some.
Qed.

(** X11. In every store built by the operations of the service alone,
    the [record_count] of each job is the number of records persisted for
    it; a job whose token fails [validate_token] has a [record_count] of 0
    and no records; a [completed] job has records. *)
Theorem service_built_counts (w : World) (job_id : N) (j : ExtractionJob) :
  service_built w → jobs w !! job_id = Some j →
  record_count j = Z.of_nat (length (records_of job_id w)) ∧
  (validate_token (api_token j) = false →
     record_count j = 0%Z ∧ records_of job_id w = []) ∧
  (status j = "completed" → records_of job_id w ≠ [] ∧ (0 < record_count j)%Z).
Proof.
  intros Hw Hj. destruct (service_built_ledger w Hw) as (_ & Hjobs).
  destruct (Hjobs job_id j Hj) as (Hc & Hrec & Hdone).
  split; [done|]. split.
  - intros Hv. destruct (records_of job_id w) as [|r l] eqn:E; [by rewrite Hc|].
    destruct Hrec as (Hv' & _); [done|congruence].
  - intros Hs. split; [by apply Hdone|].
    destruct (records_of job_id w) as [|r l] eqn:E; [by destruct (Hdone Hs)|].
    rewrite Hc. simpl. lia.
Qed.

Lemma service_built_counts_witness :
  let w := run [Start "valid_test_token_12345"; Process 7; Process 7]
             (empty_world 1000 7) in
  ∃ j, jobs w !! 7%N = Some j ∧
    record_count j = Z.of_nat (length (records_of 7 w)) ∧
    (validate_token (api_token j) = false →
       record_count j = 0%Z ∧ records_of 7 w = []) ∧
    (status j = "completed" → records_of 7 w ≠ [] ∧ (0 < record_count j)%Z).
Proof.
  intros w. eexists. split; [vm_compute; reflexivity|].
  apply (service_built_counts w 7).
  - exists (empty_world 1000 7),
      [Start "valid_test_token_12345"; Process 7; Process 7].
    split; [split; reflexivity|]. split; [repeat constructor|reflexivity].
  - vm_compute. reflexivity.
Defined.

(** X12. An extraction succeeds at most once per job: in every store
    built by the operations of the service alone, [_process_extraction]
    on a job that already has records (every [completed] job has) ends
    with the job [failed], and the records of the store and the job's
    [record_count] are as before. *)
Theorem extraction_succeeds_once (w : World) (job_id : N) (j : ExtractionJob) :
  service_built w → jobs w !! job_id = Some j →
  records_of job_id w ≠ [] →
  ∃ w' j', _process_extraction job_id w = (Ok tt, w') ∧
           jobs w' !! job_id = Some j' ∧ status j' = "failed" ∧
           record_count j' = record_count j ∧ records w' = records w.
Proof.
  intros Hw Hj Hrec. destruct (service_built_ledger w Hw) as (_ & Hjobs).
  destruct (Hjobs job_id j Hj) as (_ & H2 & _). destruct (H2 Hrec) as (Hv & Hin).
  destruct (process_outcome _ _ _ Hj)
    as (j' & new & w' & t0 & t1 & E & J & R & Hrun & _).
  exists w', j'. split; [done|]. split; [by rewrite J, lookup_insert_eq|].
  destruct Hrun as [Hv'|n _ Hn (_ & Hfresh) _ _ _ _|n msg _ _ _ Hs _ Hc ->];
    [congruence| |by rewrite app_nil_r in R].
  rewrite Forall_forall in Hfresh.
  destruct (Hfresh (job_id, "user_1")); [apply user_1_in_batch; lia|done].
Qed.

Lemma extraction_succeeds_once_witness :
  let w := run [Start "valid_test_token_12345"; Process 7] (empty_world 1000 7) in
  ∃ j, jobs w !! 7%N = Some j ∧ status j = "completed" ∧
  ∃ w' j', _process_extraction 7 w = (Ok tt, w') ∧
           jobs w' !! 7%N = Some j' ∧ status j' = "failed" ∧
           record_count j' = record_count j ∧ records w' = records w.
Proof.
  intros w. eexists. split; [vm_compute; reflexivity|]. split; [reflexivity|].
  apply (extraction_succeeds_once w 7).
  - exists (empty_world 1000 7), [Start "valid_test_token_12345"; Process 7].
    split; [split; reflexivity|]. split; [repeat constructor|reflexivity].
  - vm_compute. reflexivity.
  - vm_compute. discriminate.
Defined.

(** ** The views over the service *)

(** X13. [ScanCancelView.post] never raises and never answers 500: it
    answers 404 exactly when the job does not exist, 409 exactly when it
    exists in a status other than [pending] and [in_progress], and 200
    otherwise; after a 200 the job is stored as [cancelled], and after a
    404 or a 409 the world is as before. *)
Theorem cancel_view_status (w : World) (job_id : N) :
  ∃ resp w',
    ScanCancelView_post job_id w = (Ok resp, w') ∧
    status_code resp ≠ HTTP_500_INTERNAL_SERVER_ERROR ∧
    (status_code resp = HTTP_404_NOT_FOUND ↔ jobs w !! job_id = None) ∧
    (status_code resp = HTTP_409_CONFLICT ↔
       ∃ j, jobs w !! job_id = Some j ∧ status j ∉ ["pending"; "in_progress"]) ∧
    (status_code resp = HTTP_200_OK ↔
       ∃ j, jobs w !! job_id = Some j ∧ status j ∈ ["pending"; "in_progress"]) ∧
    (status_code resp = HTTP_200_OK →
       ∃ j', jobs w' !! job_id = Some j' ∧ status j' = "cancelled") ∧
    (status_code resp ≠ HTTP_200_OK → w' = w).
Proof.
  unfold ScanCancelView_post.
  destruct (jobs w !! job_id) as [j|] eqn:Hj.
  - rewrite (try_ok _ _ w) with (w' :=
      if can_be_cancelled j
      then snd (cancel_job job_id w) else w)
      (a := if can_be_cancelled j
            then {| status_code := HTTP_200_OK;
                    data := MessageFor "Job cancelled successfully" job_id |}
            else {| status_code := HTTP_409_CONFLICT;
                    data := Error ("Job cannot be cancelled. Current status: "
                                   +:+ status j) |}).
    2:{ rewrite (bind_ok _ _ _ _ _ (objects_get_Some _ _ _ Hj)).
        destruct (can_be_cancelled j) eqn:Hc; [|done]. cbn [negb].
        destruct (cancel_job_done _ _ _ Hj Hc) as (t & w' & E & _).
        by rewrite (bind_ok _ _ _ _ _ E), E. }
    eexists _, _. split; [done|].
    unfold can_be_cancelled. destruct (bool_decide_reflect (status j ∈ ["pending"; "in_progress"]))
      as [Hin|Hin]; cbn [status_code].
    + split; [done|]. split; [done|]. split; [split; [done|]|].
      { by intros (j0 & [= <-] & ?). }
      split; [split; [by exists j|done]|]. split; [|done]. intros _.
      destruct (cancel_job_done _ _ _ Hj) as (t & w' & E & J & _).
      { unfold can_be_cancelled. by apply bool_decide_eq_true_2. }
      rewrite E. simpl. eexists. by rewrite J, lookup_insert_eq.
    + split; [done|]. split; [done|]. split; [split; [by exists j|done]|].
      split; [|done]. split; [done|]. by intros (j0 & [= <-] & ?).
  - destruct (objects_get_None _ _ Hj) as (msg & E).
    rewrite (try_raise _ _ _ _ _ (bind_raise _ _ _ _ _ E)). simpl.
    eexists _, w. split; [done|]. simpl. split; [done|]. split; [done|].
    split; [split; [done|by intros (j0 & ? & ?)]|].
    split; [split; [done|by intros (j0 & ? & ?)]|]. done.
Qed.

(** X14. [ScanRemoveView.delete] never raises; it answers 200 exactly
    when the job existed and 404 exactly when it did not; either way the
    job cannot be fetched afterwards, and the same request again answers
    404 and changes nothing. *)
Theorem remove_view_status (w : World) (job_id : N) :
  ∃ resp w',
    ScanRemoveView_delete job_id w = (Ok resp, w') ∧
    (status_code resp = HTTP_200_OK ↔ is_Some (jobs w !! job_id)) ∧
    (status_code resp = HTTP_404_NOT_FOUND ↔ jobs w !! job_id = None) ∧
    jobs w' !! job_id = None ∧
    ScanRemoveView_delete job_id w' =
      (Ok {| status_code := HTTP_404_NOT_FOUND; data := Error "Job not found" |}, w').
Proof.
  assert (∀ w0, jobs w0 !! job_id = None →
            ScanRemoveView_delete job_id w0 =
              (Ok {| status_code := HTTP_404_NOT_FOUND;
                     data := Error "Job not found" |}, w0)) as Hgone.
  { intros w0 H0. unfold ScanRemoveView_delete.
    by rewrite (bind_ok _ _ _ _ _ (remove_job_data_missing _ _ H0)). }
  destruct (jobs w !! job_id) as [j|] eqn:Hj.
  - destruct (remove_job_data_done _ _ _ Hj) as (w' & E & J & _).
    assert (jobs w' !! job_id = None) as Hnone by by rewrite J, lookup_delete_eq.
    eexists _, w'. split.
    { unfold ScanRemoveView_delete. by rewrite (bind_ok _ _ _ _ _ E). }
    simpl. split; [split; [by eexists|done]|]. split; [done|]. split; [done|].
    by apply Hgone.
  - eexists _, w. split; [by apply Hgone|]. simpl.
    split; [split; [done|by intros [? ?]]|]. split; [done|]. split; [done|].
    by apply Hgone.
Qed.

(** ** Statistics across operations *)

Lemma objects_all_insert w w' k j :
  jobs w !! k = None → jobs w' = <[k := j]> (jobs w) →
  objects_all w' ≡ₚ j :: objects_all w.
Proof.
  intros Hk J. unfold objects_all. rewrite J.
  by rewrite (map_to_list_insert (jobs w) k j Hk).
Qed.

Lemma count_status_Permutation s (l1 l2 : list ExtractionJob) :
  l1 ≡ₚ l2 → count (filter_status s l1) = count (filter_status s l2).
Proof. unfold count, filter_status. by intros ->. Qed.

Lemma total_Permutation (l1 l2 : list Z) : l1 ≡ₚ l2 → Spec.total l1 = Spec.total l2.
Proof.
  unfold Spec.total. induction 1; simpl; lia.
Qed.

(** X15. A successful [start_extraction] adds one job to the statistics:
    [total_jobs] and [pending_jobs] grow by one and the other four counts
    and [total_records_extracted] stay; when it raises, the statistics are
    the same as before. *)
Theorem statistics_after_start (api_token : string) (w : World) :
  ∃ st, get_job_statistics w = (Ok st, w) ∧
  match start_extraction api_token w with
  | (Ok _, w') =>
      ∃ st', get_job_statistics w' = (Ok st', w') ∧
             total_jobs st' = (total_jobs st + 1)%Z ∧
             pending_jobs st' = (pending_jobs st + 1)%Z ∧
             completed_jobs st' = completed_jobs st ∧
             failed_jobs st' = failed_jobs st ∧
             in_progress_jobs st' = in_progress_jobs st ∧
             cancelled_jobs st' = cancelled_jobs st ∧
             total_records_extracted st' = total_records_extracted st
  | (Raise _, w') => get_job_statistics w' = (Ok st, w')
  end.
Proof.
  eexists. split; [apply get_job_statistics_eq|].
  unfold start_extraction.
  destruct (objects_create_spec
              {| status := "pending"; Models.api_token := api_token;
                 result_data := result_data default_job;
                 error_message := error_message default_job;
                 record_count := record_count default_job;
                 start_time := start_time default_job;
                 end_time := end_time default_job;
                 created_at := created_at default_job;
                 updated_at := updated_at default_job |} w)
    as (k & t1 & t2 & w' & [(Hk & E & J & R)|(Hk & msg & E & J & R & _)]);
    rewrite E.
  - eexists. split; [apply get_job_statistics_eq|].
    pose proof (objects_all_insert w w' k _ Hk J) as Hperm.
    cbn [total_jobs pending_jobs completed_jobs failed_jobs in_progress_jobs
         cancelled_jobs total_records_extracted].
    rewrite !or_0_aggregate_Sum.
    rewrite !(count_status_Permutation _ _ _ Hperm).
    rewrite (total_Permutation _ _ (fmap_Permutation record_count _ _ Hperm)).
    unfold count. rewrite Hperm. unfold filter_status. rewrite !filter_cons.
    cbn [length fmap list_fmap]. unfold Spec.total. simpl. repeat split; lia.
  - rewrite get_job_statistics_eq. unfold objects_all. by rewrite J.
Qed.

Lemma declared_iff j :
  declared j ↔
  status j = "pending" ∨ status j = "in_progress" ∨ status j = "completed" ∨
  status j = "failed" ∨ status j = "cancelled".
Proof.
  unfold declared. simpl. rewrite !elem_of_cons, elem_of_nil. tauto.
Qed.

Lemma count_declared (l : list ExtractionJob) :
  (count (filter_status "completed" l) + count (filter_status "failed" l) +
   count (filter_status "pending" l) + count (filter_status "in_progress" l) +
   count (filter_status "cancelled" l))%Z = count (filter declared l).
Proof.
  unfold count, filter_status.
  induction l as [|j l IH]; [done|].
  rewrite (filter_cons declared).
  destruct (decide (declared j)) as [Hd|Hd].
  - rewrite !filter_cons. cbn [length]. rewrite Nat2Z.inj_succ, <- IH.
    apply declared_iff in Hd.
    destruct Hd as [E|[E|[E|[E|E]]]]; rewrite E;
      repeat (case_decide; [try discriminate|try done]);
      cbn [length]; lia.
  - rewrite <- IH. rewrite !filter_cons_False; [done|..];
      intros E; apply Hd, declared_iff; auto.
Qed.

Lemma length_filter_all {A} (P : A → Prop) `{!∀ x, Decision (P x)} (l : list A) :
  length (filter P l) = length l ↔ Forall P l.
Proof.
  induction l as [|x l IH]; [by split|].
  rewrite Forall_cons. destruct (decide (P x)).
  - rewrite filter_cons_True by done. cbn [length]. rewrite <- IH. split; [|lia].
    intros ?. split; [done|lia].
  - rewrite filter_cons_False by done. pose proof (length_filter P l).
    cbn [length]. split; [lia|tauto].
Qed.

(** X16. On every store the five counts of [get_job_statistics] add up to
    at most [total_jobs], and to exactly [total_jobs] if and only if every
    job has one of the five declared statuses: a job in any other status
    is counted in the total only. *)
Theorem statistics_counts_bound (w : World) :
  ∃ st, get_job_statistics w = (Ok st, w) ∧
    (completed_jobs st + failed_jobs st + pending_jobs st +
     in_progress_jobs st + cancelled_jobs st ≤ total_jobs st)%Z ∧
    ((completed_jobs st + failed_jobs st + pending_jobs st +
      in_progress_jobs st + cancelled_jobs st)%Z = total_jobs st ↔
     ∀ job_id j, jobs w !! job_id = Some j → declared j).
Proof.
  eexists. split; [apply get_job_statistics_eq|].
  cbn [total_jobs completed_jobs failed_jobs pending_jobs in_progress_jobs
       cancelled_jobs].
  rewrite count_declared. unfold count.
  pose proof (length_filter declared (objects_all w)). split; [lia|].
  rewrite Nat2Z.inj_iff, length_filter_all. unfold objects_all.
  rewrite Forall_fmap, Forall_forall. split.
  - intros Hall job_id j Hj. by apply (Hall (job_id, j)), elem_of_map_to_list.
  - intros Hall [job_id j] Hj%elem_of_map_to_list. by apply (Hall job_id).
Qed.

Lemma duration_seconds_running j s w :
  start_time j = Some s → end_time j = None →
  ∃ w', duration_seconds j w = (Ok (Qmake (clock w' - s) 1000000), w') ∧ quiet w w'.
Proof.
  intros Hs He. destruct (timezone_now_spec w) as (w' & E & Q).
  exists w'. split; [|done]. unfold duration_seconds. rewrite Hs, He.
  by rewrite (bind_ok _ _ _ _ _ E).
Qed.

(** X17. For a job that has a [start_time] and no [end_time],
    [duration_seconds] reads the clock: its answer is the reading that
    [timezone.now()] gives, minus [start_time], in seconds, and the world
    it leaves is the one that the reading leaves, tables untouched.  So a
    second call answers at least as much as the first, and the answer is
    not negative when [start_time] is not after the clock. *)
Theorem duration_of_running_job (j : ExtractionJob) (s : Z) (w : World) :
  start_time j = Some s → end_time j = None →
  ∃ now1 w1 now2 w2,
    timezone_now w = (Ok now1, w1) ∧
    duration_seconds j w = (Ok (Qmake (now1 - s) 1000000), w1) ∧
    timezone_now w1 = (Ok now2, w2) ∧
    duration_seconds j w1 = (Ok (Qmake (now2 - s) 1000000), w2) ∧
    jobs w2 = jobs w ∧ records w2 = records w ∧
    (clock w ≤ now1 ≤ now2)%Z ∧
    (Qmake (now1 - s) 1000000 <= Qmake (now2 - s) 1000000)%Q ∧
    ((s ≤ clock w)%Z → (0 <= Qmake (now1 - s) 1000000)%Q).
Proof.
  intros Hs He.
  destruct (timezone_now_spec w) as (w1 & E1 & J1 & R1 & C1).
  destruct (timezone_now_spec w1) as (w2 & E2 & J2 & R2 & C2).
  exists (clock w1), w1, (clock w2), w2.
  split; [done|]. split.
  { unfold duration_seconds. rewrite Hs, He. by rewrite (bind_ok _ _ _ _ _ E1). }
  split; [done|]. split.
  { unfold duration_seconds. rewrite Hs, He. by rewrite (bind_ok _ _ _ _ _ E2). }
  split; [by rewrite J2|]. split; [by rewrite R2|]. split; [lia|].
  unfold Qle. simpl. split; lia.
Qed.

Lemma duration_of_running_job_witness :
  let j := seeded "in_progress" "test_token_in_progress_001" 0 (Some 400%Z) None in
  let w := empty_world 1000 7 in
  ∃ now1 w1 now2 w2,
    timezone_now w = (Ok now1, w1) ∧
    duration_seconds j w = (Ok (Qmake (now1 - 400) 1000000), w1) ∧
    timezone_now w1 = (Ok now2, w2) ∧
    duration_seconds j w1 = (Ok (Qmake (now2 - 400) 1000000), w2) ∧
    jobs w2 = jobs w ∧ records w2 = records w ∧
    (clock w ≤ now1 ≤ now2)%Z ∧
    (Qmake (now1 - 400) 1000000 <= Qmake (now2 - 400) 1000000)%Q ∧
    ((400 ≤ clock w)%Z → (0 <= Qmake (now1 - 400) 1000000)%Q).
Proof.
  intros j w. apply (duration_of_running_job j 400 w); reflexivity.
Defined.
